(** * sqlalchemy_zdb: the expression-tree-to-text compiler

    A shallow embedding of [sqlalchemy_zdb/compiler.py].  Python strings are
    [string], the [tables] set is a [gset string], the [format_args] list is
    a [list string]; the two accumulators are threaded through the renderer
    as explicit state, and a call returns [Ok] with its value or [Raise]
    with the exception it raised. *)

From Stdlib Require Import ZArith String Ascii List Lia.
From stdpp Require Import base gmap strings pretty.

Open Scope string_scope.
Open Scope Z_scope.

(** ** Strings *)

Module PyStr.

(** [inp.replace(old, new)] for a one-character [old]. *)
Fixpoint replace (old : ascii) (new : string) (inp : string) : string :=
  match inp with
  | EmptyString => EmptyString
  | String a rest =>
      if Ascii.eqb a old then new +:+ replace old new rest
      else String a (replace old new rest)
  end.

(** [sep.join(parts)]. *)
Fixpoint join (sep : string) (parts : list string) : string :=
  match parts with
  | [] => EmptyString
  | [p] => p
  | p :: ps => p +:+ sep +:+ join sep ps
  end.

(** The characters of a string, in order. *)
Fixpoint chars (s : string) : list ascii :=
  match s with
  | EmptyString => []
  | String a rest => a :: chars rest
  end.

(** ["%d" % n] and [str(n)] for an integer. *)
Definition str_int (n : Z) : string := pretty n.

(** [str(b)] for a boolean. *)
Definition str_bool (b : bool) : string := if b then "True" else "False".

End PyStr.

(** ** Token escaper *)

Definition backslash : ascii := "\"%char.
Definition apostrophe : ascii := "'"%char.

(** The double quote, as a character and as a one-character string. *)
Definition dquote : ascii := "034"%char.
Definition dq : string := String dquote EmptyString.

(** The list [_escape_tokens] of [escape_tokens], in source order. *)
Definition _escape_tokens : list ascii :=
  [ "'"; "034"; ":"; "*"; "~"; "?";
    "!"; "%"; "&"; "("; ")"; ",";
    "<"; "="; ">"; "["; "]"; "^";
    "{"; "}"; " "; "013"; "010";
    "009"; "012" ]%char.

(** ["\\%s" % escape_token] *)
Definition escaped (escape_token : ascii) : string :=
  String backslash (String escape_token EmptyString).

(** The loop [for escape_token in _escape_tokens]. *)
Definition escape_loop (tokens : list ascii) (inp : string) : string :=
  fold_left (fun inp escape_token => PyStr.replace escape_token (escaped escape_token) inp)
            tokens inp.

Definition escape_tokens (inp : string) : string :=
  let inp := PyStr.replace apostrophe EmptyString inp in
  escape_loop _escape_tokens inp.

(** The reserved characters of the dialect: every token but the apostrophe. *)
Definition reserved (a : ascii) : bool :=
  existsb (Ascii.eqb a) (tl _escape_tokens).

(** What [escape_tokens] does to one character. *)
Definition escape_char (a : ascii) : string :=
  if Ascii.eqb a apostrophe then EmptyString
  else if reserved a then escaped a
  else String a EmptyString.

(** The text without its apostrophes and with a backslash before each
    reserved character, character by character. *)
Fixpoint escape_spec (inp : string) : string :=
  match inp with
  | EmptyString => EmptyString
  | String a rest => escape_char a +:+ escape_spec rest
  end.

(** ** Expression tree *)

(** Operator tokens: the functions of Python's [operator] module and of
    [sqlalchemy.sql.operators] that a node carries in its [operator] or
    [modifier] attribute. *)
Module operator.
Inductive t :=
| and_ | or_ | eq | ne | lt | le | gt | ge
| asc_op | desc_op
| other (name : string).

(** [str(op)], as it appears in an error message: Python prints a function
    of its [operator] module as [<built-in function eq>], and any other
    function with its name and its address, which is left out here. *)
Definition str (op : t) : string :=
  match op with
  | and_ => "<built-in function and_>" | or_ => "<built-in function or_>"
  | eq => "<built-in function eq>" | ne => "<built-in function ne>"
  | lt => "<built-in function lt>" | le => "<built-in function le>"
  | gt => "<built-in function gt>" | ge => "<built-in function ge>"
  | asc_op => "<function asc_op>" | desc_op => "<function desc_op>"
  | other name => "<function " +:+ name +:+ ">"
  end.
End operator.

(** Modelled from the spec: the Python objects found in the [value]
    attribute of a bound parameter (and as limit and offset), among them
    the [ZdbLiteral] of [sqlalchemy_zdb.types], a module the sources do not
    hold, with its [literal] text, and the object whose [table] attribute
    is a mapped class.  [bool] is a subclass of [int]. *)
Inductive value :=
| VStr (s : string)
| VInt (n : Z)
| VBool (b : bool)
| VPattern (pattern : string)          (* re._pattern_type *)
| VZdbLiteral (literal : string)       (* ZdbLiteral *)
| VTable (tablename : string)          (* has a [table] attribute; [table.__tablename__] *)
| VDeclarativeMeta (tablename : string) (* a mapped class; [__tablename__] *)
| VNone
| VOther.

(** [isinstance(v, int)], with the integer it stands for. *)
Definition as_int (v : value) : option Z :=
  match v with
  | VInt n => Some n
  | VBool b => Some (if b then 1 else 0)
  | _ => None
  end.

(** Modelled from the spec: a column bound to a table, of SQLAlchemy's
    [Column] or of the [ZdbColumn] of [sqlalchemy_zdb.types], a module the
    sources do not hold.  [annotated] tells an [AnnotatedColumn] from a
    plain [Column]; [zdb] tells whether the class it was made from is
    [ZdbColumn], so that [type(column) == ZdbColumn] holds of a column with
    [zdb] that is not [annotated]. *)
Record column := {
  table_name : string;
  name : string;
  annotated : bool;
  zdb : bool
}.

(** Modelled from the spec: the node classes, SQLAlchemy's and the
    [ZdbTable] of [sqlalchemy_zdb.types], a module the sources do not hold,
    each with the attributes the compiler reads; the [table] of a
    [ZdbTable] is the table name as text.  The elements of a [Grouping]
    are nodes themselves: bound parameters, or nodes without a [value]
    such as the [Null] that stands for [None].  [OtherClause] is any node
    of another class. *)
Unset Elimination Schemes.
Inductive clause :=
| BindParameter (value : value)
| True_
| False_
| TextClause (text : string)
| BinaryExpression (left : clause) (operator : operator.t) (right : clause)
| BooleanClauseList (operator : operator.t) (clauses : list clause)
| Column (c : column)
| Grouping (element : list clause)
| Null
| ZdbTable (table : string)
| OtherClause.
Set Elimination Schemes.

(** Induction on the tree, with the children of a [BooleanClauseList]. *)
Section ClauseInd.
Variable P : clause -> Prop.
Hypothesis HBind : forall v, P (BindParameter v).
Hypothesis HTrue : P True_.
Hypothesis HFalse : P False_.
Hypothesis HText : forall text, P (TextClause text).
Hypothesis HBinary : forall lhs op rhs, P lhs -> P rhs -> P (BinaryExpression lhs op rhs).
Hypothesis HBoolean : forall op cs, Forall P cs -> P (BooleanClauseList op cs).
Hypothesis HColumn : forall c, P (Column c).
Hypothesis HGrouping : forall element, P (Grouping element).
Hypothesis HNull : P Null.
Hypothesis HTable : forall table, P (ZdbTable table).
Hypothesis HOther : P OtherClause.

Fixpoint clause_ind (c : clause) : P c :=
  match c with
  | BindParameter v => HBind v
  | True_ => HTrue
  | False_ => HFalse
  | TextClause text => HText text
  | BinaryExpression lhs op rhs => HBinary lhs op rhs (clause_ind lhs) (clause_ind rhs)
  | BooleanClauseList op cs =>
      HBoolean op cs
        ((fix all (cs : list clause) : Forall P cs :=
            match cs with
            | [] => @List.Forall_nil _ P
            | c :: cs => @List.Forall_cons _ P c cs (clause_ind c) (all cs)
            end) cs)
  | Column c => HColumn c
  | Grouping element => HGrouping element
  | Null => HNull
  | ZdbTable table => HTable table
  | OtherClause => HOther
  end.
End ClauseInd.

(** Modelled from the spec: the [_zdb_order_by] attribute, a [ZdbScore] of
    [sqlalchemy_zdb.types] (a module the sources do not hold) with its
    direction, a [UnaryExpression] with the base columns of its element and
    its modifier, [None], or anything else. *)
Inductive order_spec :=
| ZdbScore (_zdb_direction : string)
| UnaryExpression (base_columns : list column) (modifier : operator.t)
| OrderNone
| OrderOther.

(** A [zdb_raw_query] element; [_zdb_order_by] is [None] when the element
    has no such attribute. *)
Record zdb_raw_query := {
  clauses : list clause;
  _zdb_order_by : option order_spec;
  _zdb_offset : value;
  _zdb_limit : value
}.

(** ** Exceptions and the renderer's state *)

Inductive exn :=
| ValueError (msg : string)
| Exception (msg : string)
| TypeError          (* raised by [str.join] on an item that is not a [str] *)
| AttributeError     (* raised by an attribute access on an object without it *)
| StopIteration.     (* raised by [next] on an exhausted iterator *)

Inductive result (A : Type) :=
| Ok (a : A)
| Raise (e : exn).
Arguments Ok {A} a.
Arguments Raise {A} e.

(** What [compile_clause] returns: a [str], or the parameter's own value
    when that is an [int] (or a [bool]). *)
Inductive pyval :=
| PStr (s : string)
| PInt (n : Z)
| PBool (b : bool).

(** ["%s" % v] *)
Definition str (v : pyval) : string :=
  match v with
  | PStr s => s
  | PInt n => PyStr.str_int n
  | PBool b => PyStr.str_bool b
  end.

(** The two accumulators [tables] and [format_args]. *)
Record state := {
  tables : gset string;
  format_args : list string
}.

Definition M (A : Type) : Type := state -> result (A * state).

Definition ret {A} (a : A) : M A := fun st => Ok (a, st).
Definition raise {A} (e : exn) : M A := fun _ => Raise e.
Definition bind {A B} (m : M A) (k : A -> M B) : M B :=
  fun st => match m st with
            | Ok (a, st') => k a st'
            | Raise e => Raise e
            end.

Declare Scope zdb_scope.
Delimit Scope zdb_scope with zdb.
Notation "x <- m ;; k" := (bind m (fun x => k))
  (at level 100, m at next level, right associativity) : zdb_scope.
Notation "m ;;; k" := (bind m (fun _ => k))
  (at level 100, right associativity) : zdb_scope.
Open Scope zdb_scope.

(** [tables.add(t)] *)
Definition tables_add (t : string) : M unit :=
  fun st => Ok (tt, {| tables := {[t]} ∪ tables st; format_args := format_args st |}).

(** [format_args.append(a)] *)
Definition format_args_append (a : string) : M unit :=
  fun st => Ok (tt, {| tables := tables st; format_args := (format_args st ++ [a])%list |}).

(** [[f(x) for x in l]], left to right. *)
Definition traverse {A B} (f : A -> M B) : list A -> M (list B) :=
  fix loop l :=
    match l with
    | [] => ret []
    | x :: l => y <- f x ;; ys <- loop l ;; ret (y :: ys)
    end.

(** The items of a list when all are [str]. *)
Fixpoint all_str (l : list pyval) : option (list string) :=
  match l with
  | [] => Some []
  | PStr s :: l => match all_str l with Some ss => Some (s :: ss) | None => None end
  | _ :: _ => None
  end.

(** [sep.join(items)] on the values [compile_clause] returned. *)
Definition join_values (sep : string) (items : list pyval) : result string :=
  match all_str items with
  | Some ss => Ok (PyStr.join sep ss)
  | None => Raise TypeError
  end.

Definition lift {A} (r : result A) : M A :=
  fun st => match r with Ok a => Ok (a, st) | Raise e => Raise e end.

(** A text between double quotes. *)
Definition quote (s : string) : string := dq +:+ s +:+ dq.

(** ** The operator table *)

(** Modelled from the spec: the entries of [COMPARE_OPERATORS], the table of
    [sqlalchemy_zdb.operators], a module the sources do not hold.  An entry
    is a literal infix fragment or a function that renders the whole
    comparison; such a function receives the left column, the operator, the
    right node and the renderer of the right node, and works on the same
    accumulators.  The table itself is a parameter of the compiler. *)
Inductive oper_entry :=
| Syntax (_oper : string)
| RenderFn (_oper : column -> operator.t -> clause -> M pyval -> M pyval).

Section Compiler.

(** [COMPARE_OPERATORS.get(op, None)] *)
Variable COMPARE_OPERATORS : operator.t -> option oper_entry.

(** [compiler.process(c)]: the host compiler's SQL text of a column. *)
Variable process : column -> string.

Definition compile_binary_clause (left : clause) (op : operator.t) (right : clause)
    (render_right : M pyval) : M pyval :=
  match left with
  | Column l =>
      if annotated l then
        match COMPARE_OPERATORS op with
        | None => raise (ValueError ("Unsupported binary operator " +:+ operator.str op))
        | Some _oper =>
            tables_add (table_name l) ;;;
            match _oper with
            | RenderFn f => f l op right render_right
            | Syntax s =>
                r <- render_right ;;
                ret (PStr (name l +:+ s +:+ str r))
            end
        end
      else raise (ValueError "Incorrect field")
  | _ => raise (ValueError "Incorrect field")
  end.

Definition compile_boolean_clause_list (op : operator.t) (render_clauses : M (list pyval))
    : M pyval :=
  query <- render_clauses ;;
  _oper <- match op with
           | operator.or_ => ret " or "
           | operator.and_ => ret " and "
           | _ => raise (ValueError "Unsupported boolean clause")
           end ;;
  joined <- lift (join_values _oper query) ;;
  ret (PStr ("(" +:+ joined +:+ ")")).

Definition compile_column_clause (c : column) : M pyval :=
  format_args_append ("replace(" +:+ process c +:+ ", '" +:+ dq +:+ "', '')") ;;;
  ret (PStr (quote "%%s")).

Fixpoint grouping_values (element : list clause) : result (list string) :=
  match element with
  | [] => Ok []
  | elem :: element =>
      match (match elem with
             | BindParameter (VStr s) => Ok (quote s)
             | BindParameter (VInt n) => Ok (PyStr.str_int n)
             | BindParameter (VBool b) => Ok (PyStr.str_bool b)
             | BindParameter _ => Raise (Exception "Unsupported type for IN")
             | _ => Raise AttributeError   (* no [value] attribute to read *)
             end) with
      | Ok val =>
          match grouping_values element with
          | Ok values => Ok (val :: values)
          | Raise e => Raise e
          end
      | Raise e => Raise e
      end
  end.

Definition compile_grouping (element : list clause) : M pyval :=
  values <- lift (grouping_values element) ;;
  ret (PStr ("(" +:+ PyStr.join "," values +:+ ")")).

Definition compile_limit (offset limit : value) (order_by : order_spec) : result string :=
  match as_int offset, as_int limit with
  | Some offset, Some limit =>
      let fmt column_name direction :=
        "#limit(" +:+ column_name +:+ " " +:+ direction +:+ ", "
          +:+ PyStr.str_int offset +:+ ", " +:+ PyStr.str_int limit +:+ ") " in
      match order_by with
      | OrderNone => Raise (Exception "Expected UnaryExpression or ZdbScore for zdb LIMIT")
      | ZdbScore direction => Ok (fmt "_score" direction)
      | UnaryExpression base_columns modifier =>
          match base_columns with
          | [] => Raise StopIteration
          | column :: _ =>
              let direction :=
                match modifier with operator.asc_op => "asc" | _ => "desc" end in
              if zdb column && negb (annotated column)
              then Ok (fmt (name column) direction)
              else Raise (Exception "Expected ZdbColumn for zdb LIMIT")
          end
      | OrderOther => Raise (Exception "Unexpected expression")
      end
  | _, _ => Raise (Exception "Expected int for zdb LIMIT offset and/or limit")
  end.

Fixpoint compile_clause (c : clause) : M pyval :=
  match c with
  | BindParameter (VStr s) => ret (PStr (quote (escape_tokens s)))
  | BindParameter (VPattern pattern) => ret (PStr (quote pattern))
  | BindParameter (VZdbLiteral literal) => ret (PStr literal)
  | BindParameter (VInt n) => ret (PInt n)
  | BindParameter (VBool b) => ret (PBool b)
  | True_ => ret (PStr "true")
  | False_ => ret (PStr "false")
  | TextClause text => ret (PStr text)
  | BinaryExpression lhs op rhs =>
      compile_binary_clause lhs op rhs (compile_clause rhs)
  | BooleanClauseList op clauses =>
      compile_boolean_clause_list op (traverse compile_clause clauses)
  | Column col => compile_column_clause col
  | Grouping element => compile_grouping element
  | Null => ret (PStr "NULL")
  | ZdbTable table => ret (PStr table)
  | _ => raise (ValueError "Unsupported clause")
  end.

(** The checks on one top-level clause at index [i]; returns [add_to_query]. *)
Definition check_filter (i : nat) (c : clause) : M bool :=
  match c with
  | BinaryExpression lhs _ _ =>
      match lhs with
      | Column l => tables_add (table_name l) ;;; ret true
      | _ => raise AttributeError
      end
  | BindParameter (VStr _) => ret true
  | BindParameter (VTable tablename) =>
      if (0 <? i)%nat then raise (ValueError "Table can be specified only as first param")
      else tables_add tablename ;;; ret false
  | BindParameter _ => ret true
  | BooleanClauseList _ _ => ret true
  | Column _ => ret true
  | _ => raise (ValueError "Unsupported filter")
  end.

(** The loop [for i, c in enumerate(element.clauses)]. *)
Fixpoint compile_filters (i : nat) (cs : list clause) (query : list pyval)
    : M (list pyval) :=
  match cs with
  | [] => ret query
  | c :: cs =>
      add_to_query <- check_filter i c ;;
      query <- (if add_to_query : bool
                then r <- compile_clause c ;; ret (query ++ [r])%list
                else ret query) ;;
      compile_filters (S i) cs query
  end.

(** [tables.pop()] on the table set. *)
Definition pop (tables : gset string) : string :=
  match elements tables with
  | t :: _ => t
  | [] => EmptyString
  end.

(** The [limit] variable of [compile_zdb_query]: empty unless the element
    carries a [UnaryExpression] or a [ZdbScore] as [_zdb_order_by]. *)
Definition order_prefix (element : zdb_raw_query) : result string :=
  match _zdb_order_by element with
  | Some (ZdbScore _ as order_by) | Some (UnaryExpression _ _ as order_by) =>
      compile_limit (_zdb_offset element) (_zdb_limit element) order_by
  | _ => Ok EmptyString
  end.

Definition init : state := {| tables := ∅; format_args := [] |}.

Definition compile_zdb_query (element : zdb_raw_query) : result string :=
  match compile_filters 0 (clauses element) [] init with
  | Raise e => Raise e
  | Ok (query, st) =>
      if decide (size (tables st) = 0%nat) then Raise (ValueError "No filters passed")
      else if decide (1 < size (tables st))%nat then Raise (ValueError "Different tables passed")
      else
        let table := pop (tables st) in
        match order_prefix element with
        | Raise e => Raise e
        | Ok limit =>
            let sql := table +:+ " ==> " in
            match join_values " and " query with
            | Raise e => Raise e
            | Ok joined =>
                match format_args st with
                | _ :: _ =>
                    Ok (sql +:+ "'" +:+ limit +:+ "format('" +:+ joined +:+ "', "
                          +:+ PyStr.join ", " (format_args st) +:+ ")'")
                | [] => Ok (sql +:+ "'" +:+ limit +:+ joined +:+ "'")
                end
            end
        end
  end.

Definition compile_zdb_score (clauses : list clause) : result string :=
  match clauses with
  | [c] =>
      match c with
      | BindParameter (VDeclarativeMeta tablename) =>
          Ok ("zdb_score('" +:+ tablename +:+ "', " +:+ tablename +:+ ".ctid)")
      | _ => Raise (ValueError "Incorrect param")
      end
  | _ => Raise (ValueError "Incorrect params")
  end.

End Compiler.

(** ** Count aggregate and JSON query *)

Section Json.

(** [json.dumps(v)], of Python's standard library: the JSON text of a
    value, or the exception it raises on a value it cannot serialize. *)
Variable dumps : value -> result string.

Definition compile_zdb_count (clauses : list clause) : result string :=
  match clauses with
  | [c0; c1] =>
      match c0 with
      | BindParameter (VTable table) =>
          match c1 with
          | BindParameter v =>
              match dumps v with
              | Ok query =>
                  let query := PyStr.replace apostrophe "''" query in
                  Ok ("zdb.count('" +:+ table +:+ "', '" +:+ query +:+ "')")
              | Raise e => Raise e
              end
          | _ => Raise AttributeError
          end
      | _ => Raise AttributeError
      end
  | _ => Raise (ValueError "Incorrect params, must be zdb_count(table, query)")
  end.

Definition compile_zdb_json (clauses : list clause) : result string :=
  match clauses with
  | [c0; c1] =>
      match c0 with
      | BindParameter (VTable table) =>
          match c1 with
          | BindParameter v =>
              match dumps v with
              | Ok query =>
                  let query := PyStr.replace apostrophe "''" query in
                  Ok (table +:+ " ==> '" +:+ query +:+ "'")
              | Raise e => Raise e
              end
          | _ => Raise AttributeError
          end
      | _ => Raise AttributeError
      end
  | _ => Raise (ValueError "Incorrect params, must be zdb_json_query(table, dict)")
  end.

End Json.

(** ** Sample inputs *)

Module Sample.

Definition posts_title : column :=
  {| table_name := "posts"; name := "title"; annotated := true; zdb := true |}.
Definition users_name : column :=
  {| table_name := "users"; name := "name"; annotated := true; zdb := true |}.

(** A sample operator table, with infix fragments only. *)
Definition operators (op : operator.t) : option oper_entry :=
  match op with
  | operator.eq => Some (Syntax "=")
  | operator.ne => Some (Syntax "!=")
  | operator.gt => Some (Syntax ">")
  | operator.lt => Some (Syntax "<")
  | _ => None
  end.

(** A sample host compiler, which prints [table.column]. *)
Definition process (c : column) : string := table_name c +:+ "." +:+ name c.

Definition query (cs : list clause) : zdb_raw_query :=
  {| clauses := cs; _zdb_order_by := None; _zdb_offset := VNone; _zdb_limit := VNone |}.

End Sample.

(** A sample serializer, for the values whose JSON text needs no escape
    sequence: texts of letters and digits, integers, booleans and [None]. *)
Definition sample_dumps (v : value) : result string :=
  match v with
  | VStr s => Ok (quote s)
  | VInt n => Ok (PyStr.str_int n)
  | VBool b => Ok (if b then "true" else "false")
  | VNone => Ok "null"
  | _ => Raise TypeError
  end.

(** A sample rendering function, for an operator [is_]: it renders
    [<column>:null] without looking at the right side, and it works on the
    accumulators themselves: it leaves its own table alone in the table set
    and no format argument. *)
Definition sample_is_null (l : column) (_ : operator.t) (_ : clause) (_ : M pyval)
    : M pyval :=
  fun _ => Ok (PStr (name l +:+ ":null"),
               {| tables := {[table_name l]}; format_args := [] |}).

(** The sample operator table with this function for [is_]. *)
Definition sample_operators_fn (op : operator.t) : option oper_entry :=
  match op with
  | operator.other name =>
      if String.eqb name "is_" then Some (RenderFn sample_is_null) else None
  | _ => Sample.operators op
  end.

(** * Notions the properties are stated with *)

(** The number of backslashes that end the text [l], when [n] backslashes
    came just before [l]. *)
Fixpoint backslash_run (n : nat) (l : list ascii) : nat :=
  match l with
  | [] => n
  | a :: l => backslash_run (if Ascii.eqb a backslash then S n else O) l
  end.

(** The shape of an escaped text: plain characters, and reserved characters
    each behind a backslash of its own.  [plain] says which characters the
    input may hold besides. *)
Inductive escaped_text (plain : ascii -> Prop) : list ascii -> Prop :=
| escaped_nil : escaped_text plain []
| escaped_plain a l :
    reserved a = false -> a <> apostrophe -> plain a ->
    escaped_text plain l -> escaped_text plain (a :: l)
| escaped_reserved a l :
    reserved a = true ->
    escaped_text plain l -> escaped_text plain (backslash :: a :: l).

(** The text of a text or integer element. *)
Definition scalar_text (v : value) : option string :=
  match v with
  | VStr s => Some (quote s)
  | VInt n => Some (PyStr.str_int n)
  | _ => None
  end.

(** An element that is no [str] and no [int] (a [bool] is an [int]). *)
Definition unsupported (v : value) : Prop :=
  match v with
  | VStr _ | VInt _ | VBool _ => False
  | _ => True
  end.

(** The text of an element node that binds a text or an integer. *)
Definition element_text (elem : clause) : option string :=
  match elem with
  | BindParameter v => scalar_text v
  | _ => None
  end.

(** An element node with a [value] attribute. *)
Definition has_value (elem : clause) : bool :=
  match elem with
  | BindParameter _ => true
  | _ => false
  end.

(** An element node that a grouping renders: it binds a [str] or an [int]
    (a [bool] is an [int]). *)
Definition grouping_element (elem : clause) : bool :=
  match elem with
  | BindParameter (VStr _) | BindParameter (VInt _) | BindParameter (VBool _) => true
  | _ => false
  end.


(** ** The rendered text as a sequence of pieces *)

(** A piece of filter text: a literal text, or the placeholder of a column
    whose value is substituted at execution time. *)
Inductive piece :=
| Text (s : string)
| Hole (c : column).

Section Pieces.

Variable COMPARE_OPERATORS : operator.t -> option oper_entry.
Variable process : column -> string.

(** The text of a sequence of pieces, left to right. *)
Fixpoint fill (ps : list piece) : string :=
  match ps with
  | [] => EmptyString
  | Text s :: ps => s +:+ fill ps
  | Hole _ :: ps => quote "%%s" +:+ fill ps
  end.

(** The format arguments of a sequence of pieces: one for each hole, left
    to right. *)
Fixpoint args (ps : list piece) : list string :=
  match ps with
  | [] => []
  | Text _ :: ps => args ps
  | Hole c :: ps => ("replace(" +:+ process c +:+ ", '" +:+ dq +:+ "', '')") :: args ps
  end.

(** Sequences of pieces put one after the other, [sep] between them. *)
Fixpoint join_pieces (sep : string) (pss : list (list piece)) : list piece :=
  match pss with
  | [] => []
  | [ps] => ps
  | ps :: pss => ps ++ Text sep :: join_pieces sep pss
  end.

(** The pieces of a tree, in input order: a bare column is a hole, a
    comparison is its column name and infix fragment followed by the pieces
    of its right side, a combination is the pieces of its children in
    their order between parentheses, and any other node is one text, the
    one the renderer returns for it. *)
Fixpoint pieces (c : clause) : list piece :=
  match c with
  | Column col => [Hole col]
  | BinaryExpression lhs op rhs =>
      match lhs, COMPARE_OPERATORS op with
      | Column l, Some (Syntax s) => Text (name l +:+ s) :: pieces rhs
      | _, _ => []
      end
  | BooleanClauseList op cs =>
      Text "("
        :: join_pieces (match op with operator.or_ => " or " | _ => " and " end)
             (map pieces cs)
        ++ [Text ")"]
  | leaf =>
      match compile_clause COMPARE_OPERATORS process leaf init with
      | Ok (r, _) => [Text (str r)]
      | Raise _ => []
      end
  end.

(** Every comparison of the tree has an operator with no rendering
    function in the table. *)
Fixpoint infix_only (c : clause) : bool :=
  match c with
  | BinaryExpression lhs op rhs =>
      match COMPARE_OPERATORS op with Some (RenderFn _) => false | _ => true end
      && infix_only lhs && infix_only rhs
  | BooleanClauseList _ cs => forallb infix_only cs
  | _ => true
  end.

(** The table names of the comparisons of a tree. *)
Fixpoint comparison_tables (c : clause) : gset string :=
  match c with
  | BinaryExpression lhs _ rhs =>
      match lhs with Column l => {[table_name l]} | _ => ∅ end
      ∪ comparison_tables lhs ∪ comparison_tables rhs
  | BooleanClauseList _ cs => ⋃ (map comparison_tables cs)
  | _ => ∅
  end.

(** The table a first clause establishes. *)
Definition marker_tables (cs : list clause) : gset string :=
  match cs with
  | BindParameter (VTable t) :: _ => {[t]}
  | _ => ∅
  end.

(** The clauses that are rendered: all but a table-establishing first one. *)
Definition rendered_clauses (cs : list clause) : list clause :=
  match cs with
  | BindParameter (VTable _) :: cs => cs
  | _ => cs
  end.

(** The table names referenced across the comparisons and the
    table-establishing clause of a query. *)
Definition query_tables (cs : list clause) : gset string :=
  marker_tables cs ∪ ⋃ (map comparison_tables cs).

(** The pieces of the filter text of a query. *)
Definition query_pieces (cs : list clause) : list piece :=
  join_pieces " and " (map pieces (rendered_clauses cs)).

(** What one successful call of the renderer has done. *)
Definition rendered (c : clause) (st : state) (r : pyval) (st' : state) : Prop :=
  str r = fill (pieces c)
  /\ format_args st' = (format_args st ++ args (pieces c))%list
  /\ tables st' = tables st ∪ comparison_tables c.

Definition sound (c : clause) : Prop :=
  infix_only c = true ->
  forall st r st',
    compile_clause COMPARE_OPERATORS process c st = Ok (r, st') -> rendered c st r st'.

End Pieces.

(** [s] starts with [pat]. *)
Fixpoint starts_with (pat s : string) : bool :=
  match pat, s with
  | EmptyString, _ => true
  | String a pat, String b s => Ascii.eqb a b && starts_with pat s
  | String _ _, EmptyString => false
  end.

(** The number of places of [s] where [pat] stands. *)
Fixpoint occurrences (pat s : string) : nat :=
  match s with
  | EmptyString => O
  | String _ rest => ((if starts_with pat s then 1 else 0) + occurrences pat rest)%nat
  end.

(** ** Notions of the further properties *)

(** [inp] without its apostrophes. *)
Definition strip_apostrophes (inp : string) : string :=
  PyStr.replace apostrophe EmptyString inp.

(** A character that [escape_tokens] removes or escapes. *)
Definition is_token (a : ascii) : bool := existsb (Ascii.eqb a) _escape_tokens.

(** The number of characters of a text that satisfy [p]. *)
Fixpoint count_chars (p : ascii -> bool) (s : string) : nat :=
  match s with
  | EmptyString => O
  | String a rest => ((if p a then 1 else 0) + count_chars p rest)%nat
  end.

(** Reading an escaped text back: a backslash right before a reserved
    character is dropped, every other character is kept. *)
Fixpoint unescape (s : string) : string :=
  match s with
  | EmptyString => EmptyString
  | String a rest =>
      if Ascii.eqb a backslash then
        match rest with
        | String b rest' =>
            if reserved b then String b (unescape rest')
            else String a (unescape rest)
        | EmptyString => String a EmptyString
        end
      else String a (unescape rest)
  end.

(** The text a SQL string literal with the body [s] stands for: two
    apostrophes in a row stand for one, and an apostrophe on its own would
    end the literal, in which case there is no such text. *)
Fixpoint sql_literal_body (s : string) : option string :=
  match s with
  | EmptyString => Some EmptyString
  | String a rest =>
      if Ascii.eqb a apostrophe then
        match rest with
        | String b rest' =>
            if Ascii.eqb b apostrophe
            then match sql_literal_body rest' with
                 | Some t => Some (String apostrophe t)
                 | None => None
                 end
            else None
        | EmptyString => None
        end
      else match sql_literal_body rest with
           | Some t => Some (String a t)
           | None => None
           end
  end.

(** The text of an order/limit prefix. *)
Definition limit_text (column_name direction : string) (offset limit : Z) : string :=
  "#limit(" +:+ column_name +:+ " " +:+ direction +:+ ", "
    +:+ PyStr.str_int offset +:+ ", " +:+ PyStr.str_int limit +:+ ") ".

(** A clause that the loop of [compile_zdb_query] refuses at any position. *)
Definition unsupported_filter (c : clause) : bool :=
  match c with
  | BinaryExpression _ _ _ | BindParameter _ | BooleanClauseList _ _ | Column _ => false
  | _ => true
  end.

(** A bound parameter whose value is an [int] (or a [bool]). *)
Definition int_parameter (c : clause) : bool :=
  match c with
  | BindParameter (VInt _) | BindParameter (VBool _) => true
  | _ => false
  end.

(** An order attribute that [compile_zdb_query] passes over. *)
Definition no_order (order_by : option order_spec) : bool :=
  match order_by with
  | Some (ZdbScore _) | Some (UnaryExpression _ _) => false
  | _ => true
  end.

(** A top-level clause that the loop renders without naming a table: a
    bound text, pattern, raw literal, integer or boolean, or a bare
    column. *)
Definition tableless (c : clause) : bool :=
  match c with
  | BindParameter (VStr _) | BindParameter (VPattern _) | BindParameter (VZdbLiteral _)
  | BindParameter (VInt _) | BindParameter (VBool _) | Column _ => true
  | _ => false
  end.

(** * Properties *)

Set Warnings "-clear-no-such-hyp".

(** ** Strings and the escaping loop *)

Lemma string_app_cons (a : ascii) (s1 s2 : string) :
  String a s1 +:+ s2 = String a (s1 +:+ s2).
Proof. reflexivity. Qed.

Lemma string_app_nil_l (s : string) : EmptyString +:+ s = s.
Proof. reflexivity. Qed.

Lemma string_app_assoc (s1 s2 s3 : string) :
  (s1 +:+ s2) +:+ s3 = s1 +:+ (s2 +:+ s3).
Proof.
  induction s1 as [|a s1 IH]; [done|].
  rewrite !string_app_cons. by f_equal.
Qed.

Lemma string_app_nil_r (s : string) : s +:+ EmptyString = s.
Proof.
  induction s as [|a s IH]; [done|].
  rewrite string_app_cons. by f_equal.
Qed.

Lemma replace_app old new s1 s2 :
  PyStr.replace old new (s1 +:+ s2) = PyStr.replace old new s1 +:+ PyStr.replace old new s2.
Proof.
  induction s1 as [|a s1 IH]; [done|].
  rewrite string_app_cons. simpl.
  destruct (Ascii.eqb a old); rewrite IH.
  - by rewrite string_app_assoc.
  - by rewrite string_app_cons.
Qed.

Lemma escape_loop_app tokens s1 s2 :
  escape_loop tokens (s1 +:+ s2) = escape_loop tokens s1 +:+ escape_loop tokens s2.
Proof.
  revert s1 s2. induction tokens as [|t ts IH]; intros s1 s2; simpl; [done|].
  unfold escape_loop in *. simpl. by rewrite replace_app, IH.
Qed.

Lemma escape_tokens_app s1 s2 :
  escape_tokens (s1 +:+ s2) = escape_tokens s1 +:+ escape_tokens s2.
Proof.
  unfold escape_tokens. rewrite replace_app. apply escape_loop_app.
Qed.

Lemma escape_tokens_char a :
  escape_tokens (String a EmptyString) = escape_char a.
Proof.
  destruct a as [[] [] [] [] [] [] [] []]; vm_compute; reflexivity.
Qed.

Lemma escape_tokens_spec inp : escape_tokens inp = escape_spec inp.
Proof.
  induction inp as [|a rest IH]; [done|].
  change (String a rest) with (String a EmptyString +:+ rest).
  rewrite escape_tokens_app, escape_tokens_char, IH. done.
Qed.

(** ** Token escaper *)

Lemma chars_app s1 s2 : PyStr.chars (s1 +:+ s2) = (PyStr.chars s1 ++ PyStr.chars s2)%list.
Proof.
  induction s1 as [|a s1 IH]; [done|].
  rewrite string_app_cons. simpl. by rewrite IH.
Qed.

Lemma escape_spec_shape (plain : ascii -> Prop) inp :
  Forall plain (PyStr.chars inp) ->
  escaped_text plain (PyStr.chars (escape_spec inp)).
Proof.
  induction inp as [|a rest IH]; simpl; intros Hall.
  - constructor.
  - apply Forall_cons in Hall as [Ha Hrest].
    rewrite chars_app. unfold escape_char.
    destruct (Ascii.eqb_spec a apostrophe) as [->|Hne]; [by apply IH|].
    destruct (reserved a) eqn:Hr; simpl.
    + apply escaped_reserved; auto.
    + apply escaped_plain; auto.
Qed.

Lemma escaped_text_no_apostrophe plain l :
  escaped_text plain l -> apostrophe ∉ l.
Proof.
  induction 1 as [|a l Hr Hne _ _ IH|a l Hr _ IH].
  - apply not_elem_of_nil.
  - rewrite not_elem_of_cons. split; [congruence|done].
  - rewrite !not_elem_of_cons. repeat split; try done.
    intros <-. vm_compute in Hr. discriminate.
Qed.

Lemma backslash_run_other n a l :
  a <> backslash -> backslash_run n (a :: l) = backslash_run 0 l.
Proof.
  intros Hne. simpl. destruct (Ascii.eqb_spec a backslash); [done|reflexivity].
Qed.

Lemma reserved_not_backslash a : reserved a = true -> a <> backslash.
Proof. intros Hr ->. vm_compute in Hr. discriminate. Qed.

Lemma escaped_text_preceded plain l :
  escaped_text plain l ->
  forall n pre a post, l = (pre ++ a :: post)%list -> reserved a = true ->
  (1 <= backslash_run n pre)%nat.
Proof.
  induction 1 as [|a0 l Hr Hne _ _ IH|a0 l Hr _ IH]; intros n pre a post Heq Ha.
  - by destruct pre.
  - destruct pre as [|x pre]; injection Heq as -> ->; [congruence|].
    simpl. by eapply IH.
  - destruct pre as [|x [|y pre]].
    + injection Heq as <- _. vm_compute in Ha. discriminate.
    + injection Heq as <- _. simpl. lia.
    + injection Heq as <- <- ->.
      change (backslash_run n (backslash :: a0 :: pre))
        with (backslash_run (S n) (a0 :: pre)).
      rewrite backslash_run_other by by apply reserved_not_backslash.
      by eapply IH.
Qed.

Lemma escaped_text_preceded_once l :
  escaped_text (fun a => a <> backslash) l ->
  forall pre a post, l = (pre ++ a :: post)%list -> reserved a = true ->
  backslash_run 0 pre = 1%nat.
Proof.
  induction 1 as [|a0 l Hr Hne Hp _ IH|a0 l Hr _ IH]; intros pre a post Heq Ha.
  - by destruct pre.
  - destruct pre as [|x pre]; injection Heq as -> ->; [congruence|].
    rewrite backslash_run_other by done. by eapply IH.
  - destruct pre as [|x [|y pre]].
    + injection Heq as <- _. vm_compute in Ha. discriminate.
    + injection Heq as <- _. reflexivity.
    + injection Heq as <- <- ->.
      change (backslash_run 0 (backslash :: a0 :: pre))
        with (backslash_run 1 (a0 :: pre)).
      rewrite backslash_run_other by by apply reserved_not_backslash.
      by eapply IH.
Qed.

(** C5 (as the code has it): in the output of [escape_tokens], which is
    the input without its apostrophes and with one backslash put before
    each reserved character, no apostrophe is left and every reserved
    character stands right behind a backslash; when the input holds no
    backslash of its own, behind exactly one. *)
Theorem escape_tokens_escapes (inp : string) (pre : list ascii) (a : ascii) (post : list ascii) :
  PyStr.chars (escape_tokens inp) = (pre ++ a :: post)%list ->
  reserved a = true ->
  escape_tokens inp = escape_spec inp
  /\ (apostrophe ∉ PyStr.chars (escape_tokens inp))
  /\ (1 <= backslash_run 0 pre)%nat
  /\ (backslash ∉ PyStr.chars inp -> backslash_run 0 pre = 1%nat).
Proof.
  intros Heq Ha. rewrite escape_tokens_spec in *.
  split; [reflexivity|].
  assert (Hshape : escaped_text (fun _ => True) (PyStr.chars (escape_spec inp))).
  { apply escape_spec_shape. by apply Forall_forall. }
  split; [by eapply escaped_text_no_apostrophe|].
  split; [by eapply escaped_text_preceded|].
  intros Hnb. eapply escaped_text_preceded_once; [|done..].
  apply escape_spec_shape, Forall_forall. intros x Hx ->. done.
Qed.

Lemma escape_tokens_escapes_witness :
  PyStr.chars (escape_tokens "it's a") = (["i"; "t"; "s"; backslash] ++ " " :: ["a"])%char%list
  /\ reserved " " = true
  /\ (apostrophe ∉ PyStr.chars (escape_tokens "it's a"))
  /\ backslash_run 0 ["i"; "t"; "s"; backslash]%char = 1%nat.
Proof.
  assert (H1 : PyStr.chars (escape_tokens "it's a")
               = (["i"; "t"; "s"; backslash] ++ " " :: ["a"])%char%list) by reflexivity.
  assert (H2 : reserved " " = true) by reflexivity.
  destruct (escape_tokens_escapes "it's a" _ _ _ H1 H2) as (_ & Hno & _ & Hone).
  split; [exact H1|]. split; [exact H2|]. split; [exact Hno|].
  apply Hone. unfold backslash. simpl. rewrite !not_elem_of_cons.
  repeat split; try discriminate. apply not_elem_of_nil.
Defined.

(** C5, as the claim has it, fails on an input with a backslash of its
    own: the space of the input [\ ] ends up behind two backslashes. *)
Lemma escape_tokens_two_backslashes :
  reserved " " = true
  /\ PyStr.chars (escape_tokens "\ ") = ([backslash; backslash] ++ " " :: [])%char%list
  /\ backslash_run 0 [backslash; backslash] = 2%nat.
Proof. repeat split; reflexivity. Qed.

(** ** Limit/Order builder *)

(** C4, as the claim has it, fails: a negative offset and a negative limit
    are taken and printed. *)
Lemma compile_limit_negative :
  compile_limit (VInt (-1)) (VInt (-10)) (ZdbScore "desc")
  = Ok "#limit(_score desc, -1, -10) ".
Proof. vm_compute. reflexivity. Qed.

(** C4 (as the code has it): a call whose offset or limit is not an [int]
    fails with the error of the first check, whatever the order; integers
    of either sign pass that check, and with a score order the prefix is
    returned with both printed in decimal. *)
Theorem compile_limit_requires_int (offset limit : value) (order_by : order_spec) :
  (as_int offset = None \/ as_int limit = None ->
   compile_limit offset limit order_by
   = Raise (Exception "Expected int for zdb LIMIT offset and/or limit"))
  /\ (forall o l direction,
        offset = VInt o -> limit = VInt l -> order_by = ZdbScore direction ->
        compile_limit offset limit order_by
        = Ok ("#limit(_score " +:+ direction +:+ ", " +:+ PyStr.str_int o +:+ ", "
                +:+ PyStr.str_int l +:+ ") ")).
Proof.
  split.
  - intros [H|H]; unfold compile_limit; rewrite H; [done|].
    by destruct (as_int offset).
  - intros o l direction -> -> ->. reflexivity.
Qed.

Lemma compile_limit_requires_int_witness :
  compile_limit (VStr "0") (VInt 10) (ZdbScore "desc")
  = Raise (Exception "Expected int for zdb LIMIT offset and/or limit")
  /\ compile_limit (VInt (-3)) (VInt 10) (ZdbScore "asc")
     = Ok ("#limit(_score " +:+ "asc" +:+ ", " +:+ PyStr.str_int (-3) +:+ ", "
             +:+ PyStr.str_int 10 +:+ ") ").
Proof.
  split.
  - apply (compile_limit_requires_int (VStr "0") (VInt 10) (ZdbScore "desc")).
    left. reflexivity.
  - by apply (compile_limit_requires_int (VInt (-3)) (VInt 10) (ZdbScore "asc")).
Defined.

(** ** Grouping *)

Lemma grouping_values_scalars element texts :
  mapM element_text element = Some texts -> grouping_values element = Ok texts.
Proof.
  revert texts. induction element as [|elem element IH]; intros texts H.
  - by injection H as <-.
  - simpl in H.
    destruct (element_text elem) as [t|] eqn:Helem; [|done]. simpl in H.
    destruct (mapM element_text element) as [ts|]; [|done]. simpl in H.
    injection H as <-. simpl. rewrite (IH ts eq_refl).
    destruct elem as [[]| | | | | | | | | |]; by simplify_eq/=.
Qed.

(** The first element that binds an unsupported value, behind elements
    that all have a value. *)
Lemma grouping_values_unsupported pre v post :
  forallb has_value pre = true -> unsupported v ->
  grouping_values (pre ++ BindParameter v :: post)
  = Raise (Exception "Unsupported type for IN").
Proof.
  intros Hpre Hv. induction pre as [|elem pre IH]; simpl.
  - by destruct v.
  - simpl in Hpre. apply andb_true_iff in Hpre as [Helem Hpre].
    rewrite (IH Hpre). by destruct elem as [[]| | | | | | | | | |].
Qed.

Lemma grouping_values_fails element elem :
  elem ∈ element -> grouping_element elem = false ->
  exists e, grouping_values element = Raise e.
Proof.
  induction 1 as [elem element|elem elem' element _ IH]; intros Helem; simpl.
  - destruct elem as [[]| | | | | | | | | |]; try done; eauto.
  - destruct (IH Helem) as [e ->].
    destruct elem' as [[]| | | | | | | | | |]; eauto.
Qed.

(** C6, as the claim has it, fails twice over: a boolean element is
    rendered, as [True], and nothing is raised; and an element node without
    a value, such as the [Null] that stands for [None], raises
    [AttributeError] where the claim has "Unsupported type for IN", also
    when an element with an unsupported value comes after it. *)
Lemma compile_grouping_bool :
  compile_grouping [BindParameter (VInt 1); BindParameter (VBool true)] init
  = Ok (PStr "(1,True)", init)
  /\ compile_grouping [BindParameter (VStr "a"); Null] init = Raise AttributeError
  /\ compile_grouping [Null; BindParameter VOther] init = Raise AttributeError.
Proof. split; [|split]; vm_compute; reflexivity. Qed.

(** C6 (as the code has it): a Grouping whose elements bind texts and
    integers is rendered between parentheses, its elements joined by
    commas, text between double quotes and integers bare, and the
    accumulators stay as they were; a Grouping with an element that is no
    text, no integer and no boolean always fails, and it fails with
    "Unsupported type for IN" when the first such bound value has only
    elements with a value before it. *)
Theorem compile_grouping_renders (element : list clause) (st : state) :
  (forall texts, mapM element_text element = Some texts ->
     compile_grouping element st = Ok (PStr ("(" +:+ PyStr.join "," texts +:+ ")"), st))
  /\ (forall elem, elem ∈ element -> grouping_element elem = false ->
        exists e, compile_grouping element st = Raise e)
  /\ (forall pre v post,
        element = (pre ++ BindParameter v :: post)%list ->
        forallb has_value pre = true -> unsupported v ->
        compile_grouping element st = Raise (Exception "Unsupported type for IN")).
Proof.
  split; [|split].
  - intros texts H. unfold compile_grouping, bind, lift.
    by rewrite (grouping_values_scalars _ _ H).
  - intros elem Hin Helem. unfold compile_grouping, bind, lift.
    destruct (grouping_values_fails _ _ Hin Helem) as [e ->]. eauto.
  - intros pre v post -> Hpre Hv. unfold compile_grouping, bind, lift.
    by rewrite (grouping_values_unsupported _ _ _ Hpre Hv).
Qed.

Lemma compile_grouping_renders_witness :
  compile_grouping [BindParameter (VStr "a"); BindParameter (VInt 2)] init
  = Ok (PStr ("(" +:+ PyStr.join "," [quote "a"; PyStr.str_int 2] +:+ ")"), init)
  /\ (exists e, compile_grouping [BindParameter (VStr "a"); Null] init = Raise e)
  /\ compile_grouping [BindParameter (VStr "a"); BindParameter VNone] init
     = Raise (Exception "Unsupported type for IN").
Proof.
  split; [|split].
  - by apply (compile_grouping_renders
                [BindParameter (VStr "a"); BindParameter (VInt 2)] init).
  - destruct (compile_grouping_renders [BindParameter (VStr "a"); Null] init)
      as (_ & Hfails & _).
    apply (Hfails Null); [|reflexivity].
    apply list_elem_of_further, list_elem_of_here.
  - destruct (compile_grouping_renders
                [BindParameter (VStr "a"); BindParameter VNone] init) as (_ & _ & Hraise).
    apply (Hraise [BindParameter (VStr "a")] VNone []); [reflexivity|reflexivity|exact I].
Defined.

(** ** Score accessor *)

(** C8: on the one clause that binds a mapped class of table [T] the
    result is [zdb_score('T', T.ctid)]; any other number of clauses, and
    any other single clause, raises. *)
Theorem compile_zdb_score_spec (clauses : list clause) :
  (forall T, clauses = [BindParameter (VDeclarativeMeta T)] ->
     compile_zdb_score clauses = Ok ("zdb_score('" +:+ T +:+ "', " +:+ T +:+ ".ctid)"))
  /\ (length clauses <> 1%nat ->
      compile_zdb_score clauses = Raise (ValueError "Incorrect params"))
  /\ (forall c, clauses = [c] -> (forall T, c <> BindParameter (VDeclarativeMeta T)) ->
      compile_zdb_score clauses = Raise (ValueError "Incorrect param")).
Proof.
  repeat split.
  - by intros T ->.
  - intros Hlen. by destruct clauses as [|c [|c' cs]].
  - intros c -> Hc. destruct c as [[]| | | | | | | | | |]; try reflexivity.
    by destruct (Hc tablename).
Qed.

Lemma compile_zdb_score_spec_witness :
  compile_zdb_score [BindParameter (VDeclarativeMeta "posts")]
  = Ok ("zdb_score('" +:+ "posts" +:+ "', " +:+ "posts" +:+ ".ctid)")
  /\ compile_zdb_score [] = Raise (ValueError "Incorrect params")
  /\ compile_zdb_score [BindParameter (VTable "posts")] = Raise (ValueError "Incorrect param").
Proof.
  split; [|split].
  - by apply (compile_zdb_score_spec [BindParameter (VDeclarativeMeta "posts")]).
  - by apply (compile_zdb_score_spec []).
  - by apply (compile_zdb_score_spec [BindParameter (VTable "posts")]) with (c := BindParameter (VTable "posts")).
Defined.

(** ** Raw query *)

Section RawQuery.

Variable COMPARE_OPERATORS : operator.t -> option oper_entry.
Variable process : column -> string.

Lemma pop_singleton (t : string) : pop {[t]} = t.
Proof. unfold pop. by rewrite elements_singleton. Qed.

(** The last part of [compile_zdb_query], once the loop is through. *)
Lemma compile_zdb_query_after_loop element query st :
  compile_filters COMPARE_OPERATORS process 0 (clauses element) [] init = Ok (query, st) ->
  compile_zdb_query COMPARE_OPERATORS process element =
    if decide (size (tables st) = 0%nat) then Raise (ValueError "No filters passed")
    else if decide (1 < size (tables st))%nat then Raise (ValueError "Different tables passed")
    else
      match order_prefix element with
      | Raise e => Raise e
      | Ok limit =>
          match join_values " and " query with
          | Raise e => Raise e
          | Ok joined =>
              match format_args st with
              | _ :: _ =>
                  Ok ((pop (tables st) +:+ " ==> ") +:+ "'" +:+ limit +:+ "format('"
                        +:+ joined +:+ "', " +:+ PyStr.join ", " (format_args st) +:+ ")'")
              | [] => Ok ((pop (tables st) +:+ " ==> ") +:+ "'" +:+ limit +:+ joined +:+ "'")
              end
          end
      end.
Proof. intros H. unfold compile_zdb_query. by rewrite H. Qed.

Lemma compile_zdb_query_one_table element query st table limit joined :
  compile_filters COMPARE_OPERATORS process 0 (clauses element) [] init = Ok (query, st) ->
  tables st = {[table]} ->
  order_prefix element = Ok limit ->
  join_values " and " query = Ok joined ->
  compile_zdb_query COMPARE_OPERATORS process element =
    match format_args st with
    | _ :: _ =>
        Ok ((table +:+ " ==> ") +:+ "'" +:+ limit +:+ "format('"
              +:+ joined +:+ "', " +:+ PyStr.join ", " (format_args st) +:+ ")'")
    | [] => Ok ((table +:+ " ==> ") +:+ "'" +:+ limit +:+ joined +:+ "'")
    end.
Proof.
  intros Hloop Ht Hl Hj.
  rewrite (compile_zdb_query_after_loop _ _ _ Hloop), Ht, size_singleton, Hl, Hj, pop_singleton.
  destruct (decide (1 = 0)%nat); [lia|].
  destruct (decide (1 < 1)%nat); [lia|]. done.
Qed.

(** C1 (as the code has it): when the loop leaves at least one format
    argument, the output is
    [<table> ==> '<orderPrefix?>format('<clauses joined by " and ">', <arg1>, ...)']:
    the order/limit prefix stands before [format(], not inside its quoted
    first argument. *)
Theorem compile_zdb_query_format element query st table limit joined :
  compile_filters COMPARE_OPERATORS process 0 (clauses element) [] init = Ok (query, st) ->
  format_args st <> [] ->
  tables st = {[table]} ->
  order_prefix element = Ok limit ->
  join_values " and " query = Ok joined ->
  compile_zdb_query COMPARE_OPERATORS process element =
    Ok (table +:+ " ==> " +:+ "'" +:+ limit +:+ "format('" +:+ joined +:+ "', "
          +:+ PyStr.join ", " (format_args st) +:+ ")'").
Proof.
  intros Hloop Hargs Ht Hl Hj.
  rewrite (compile_zdb_query_one_table _ _ _ _ _ _ Hloop Ht Hl Hj).
  destruct (format_args st); [done|]. by rewrite string_app_assoc.
Qed.

(** C2 (as the code has it): the check is on the table set.  A query with
    no clause at all, and any query whose loop ends with no table name,
    fails with "No filters passed"; a query of the table-establishing
    clause alone has a table and compiles, to an empty filter text. *)
Theorem compile_zdb_query_no_filters element :
  (clauses element = [] ->
   compile_zdb_query COMPARE_OPERATORS process element = Raise (ValueError "No filters passed"))
  /\ (forall query st,
        compile_filters COMPARE_OPERATORS process 0 (clauses element) [] init = Ok (query, st) ->
        tables st = ∅ ->
        compile_zdb_query COMPARE_OPERATORS process element = Raise (ValueError "No filters passed"))
  /\ (forall t,
        clauses element = [BindParameter (VTable t)] ->
        _zdb_order_by element = None ->
        compile_zdb_query COMPARE_OPERATORS process element = Ok (t +:+ " ==> " +:+ "''")).
Proof.
  assert (Hempty : forall query st,
    compile_filters COMPARE_OPERATORS process 0 (clauses element) [] init = Ok (query, st) ->
    tables st = ∅ ->
    compile_zdb_query COMPARE_OPERATORS process element = Raise (ValueError "No filters passed")).
  { intros query st Hloop Ht.
    rewrite (compile_zdb_query_after_loop _ _ _ Hloop), Ht, size_empty.
    by destruct (decide (0 = 0)%nat). }
  split; [|split].
  - intros Hcs. apply (Hempty [] init); [|done]. by rewrite Hcs.
  - exact Hempty.
  - intros t Hcs Hord.
    rewrite (compile_zdb_query_one_table element []
               {| tables := {[t]} ∪ ∅; format_args := [] |} t EmptyString EmptyString).
    + simpl. by rewrite string_app_assoc.
    + by rewrite Hcs.
    + simpl. apply right_id_L, _.
    + unfold order_prefix. by rewrite Hord.
    + done.
Qed.

(** A query of one comparison whose operator has an infix fragment and
    whose right side renders to a text without touching the accumulators. *)
Lemma compile_zdb_query_comparison col op s rhs text offset limit :
  annotated col = true ->
  COMPARE_OPERATORS op = Some (Syntax s) ->
  (forall st, compile_clause COMPARE_OPERATORS process rhs st = Ok (PStr text, st)) ->
  compile_zdb_query COMPARE_OPERATORS process
    {| clauses := [BinaryExpression (Column col) op rhs];
       _zdb_order_by := None; _zdb_offset := offset; _zdb_limit := limit |}
  = Ok (table_name col +:+ " ==> " +:+ "'" +:+ name col +:+ s +:+ text +:+ "'").
Proof.
  intros Hann Hop Hrhs.
  rewrite (compile_zdb_query_one_table _
             [PStr (name col +:+ s +:+ text)]
             {| tables := {[table_name col]} ∪ ({[table_name col]} ∪ ∅); format_args := [] |}
             (table_name col) EmptyString (name col +:+ s +:+ text)).
  - simpl. by rewrite !string_app_assoc.
  - unfold compile_filters, check_filter, bind, tables_add, ret. simpl.
    unfold compile_binary_clause. rewrite Hann, Hop.
    unfold bind, tables_add, ret. simpl. by rewrite Hrhs.
  - simpl. by rewrite (right_id_L ∅ (∪)), (idemp_L (∪)).
  - reflexivity.
  - reflexivity.
Qed.

(** C3 (as the code has it): the query over [posts] whose one clause is
    the comparison of [title] with the text [hello world] compiles to
    [posts ==> 'title<op>"hello\ world"'], where [<op>] is the infix
    fragment of the equality operator: no parentheses around the
    comparison, and the space of the literal escaped. *)
Theorem compile_zdb_query_title col s offset limit :
  table_name col = "posts" -> name col = "title" -> annotated col = true ->
  COMPARE_OPERATORS operator.eq = Some (Syntax s) ->
  compile_zdb_query COMPARE_OPERATORS process
    {| clauses := [BinaryExpression (Column col) operator.eq
                     (BindParameter (VStr "hello world"))];
       _zdb_order_by := None; _zdb_offset := offset; _zdb_limit := limit |}
  = Ok ("posts" +:+ " ==> " +:+ "'" +:+ "title" +:+ s
          +:+ (dq +:+ "hello\ world" +:+ dq) +:+ "'").
Proof.
  intros Ht Hn Hann Hop.
  rewrite (compile_zdb_query_comparison col operator.eq s _
             (dq +:+ "hello\ world" +:+ dq) offset limit Hann Hop).
  - by rewrite Ht, Hn.
  - reflexivity.
Qed.

(** C10: a [ZdbTable] node given to the clause renderer comes back as its
    table name, with the table set and the format arguments as they were;
    so a marker on the right of a comparison adds nothing to the table
    check, and the query compiles under the column's table whatever table
    the marker names. *)
Theorem compile_clause_zdb_table table :
  (forall st, compile_clause COMPARE_OPERATORS process (ZdbTable table) st
              = Ok (PStr table, st))
  /\ (forall col op s offset limit,
        annotated col = true ->
        COMPARE_OPERATORS op = Some (Syntax s) ->
        compile_zdb_query COMPARE_OPERATORS process
          {| clauses := [BinaryExpression (Column col) op (ZdbTable table)];
             _zdb_order_by := None; _zdb_offset := offset; _zdb_limit := limit |}
        = Ok (table_name col +:+ " ==> " +:+ "'" +:+ name col +:+ s +:+ table +:+ "'")).
Proof.
  split; [done|].
  intros col op s offset limit Hann Hop.
  by apply compile_zdb_query_comparison.
Qed.

End RawQuery.

Lemma compile_zdb_query_format_witness :
  compile_zdb_query Sample.operators Sample.process
    {| clauses := [BindParameter (VTable "posts"); Column Sample.posts_title];
       _zdb_order_by := Some (ZdbScore "desc");
       _zdb_offset := VInt 0; _zdb_limit := VInt 10 |}
  = Ok ("posts" +:+ " ==> " +:+ "'" +:+ "#limit(_score desc, 0, 10) " +:+ "format('"
          +:+ quote "%%s" +:+ "', "
          +:+ PyStr.join ", " ["replace(posts.title, '" +:+ dq +:+ "', '')"] +:+ ")'").
Proof.
  apply (compile_zdb_query_format Sample.operators Sample.process _
           [PStr (quote "%%s")]
           {| tables := {[ "posts" ]} ∪ ∅;
              format_args := ["replace(posts.title, '" +:+ dq +:+ "', '')"] |}).
  - reflexivity.
  - discriminate.
  - simpl. apply right_id_L, _.
  - reflexivity.
  - reflexivity.
Defined.

(** C1, as the claim has it, fails when the query has an order: the prefix
    is put before [format(], where the claim has it inside the quoted first
    argument. *)
Lemma compile_zdb_query_prefix_outside_format :
  compile_zdb_query Sample.operators Sample.process
    {| clauses := [BindParameter (VTable "posts"); Column Sample.posts_title];
       _zdb_order_by := Some (ZdbScore "desc");
       _zdb_offset := VInt 0; _zdb_limit := VInt 10 |}
  = Ok ("posts ==> '#limit(_score desc, 0, 10) format('" +:+ quote "%%s"
          +:+ "', replace(posts.title, '" +:+ dq +:+ "', ''))'")
  /\ compile_zdb_query Sample.operators Sample.process
    {| clauses := [BindParameter (VTable "posts"); Column Sample.posts_title];
       _zdb_order_by := Some (ZdbScore "desc");
       _zdb_offset := VInt 0; _zdb_limit := VInt 10 |}
  <> Ok ("posts ==> 'format('#limit(_score desc, 0, 10) " +:+ quote "%%s"
          +:+ "', replace(posts.title, '" +:+ dq +:+ "', ''))'").
Proof. split; [vm_compute; reflexivity|vm_compute; discriminate]. Qed.

Lemma compile_zdb_query_no_filters_witness :
  compile_zdb_query Sample.operators Sample.process (Sample.query [])
  = Raise (ValueError "No filters passed")
  /\ compile_zdb_query Sample.operators Sample.process
       (Sample.query [BindParameter (VStr "open")])
     = Raise (ValueError "No filters passed")
  /\ compile_zdb_query Sample.operators Sample.process
       (Sample.query [BindParameter (VTable "posts")])
     = Ok ("posts" +:+ " ==> " +:+ "''").
Proof.
  split; [|split].
  - by apply (compile_zdb_query_no_filters Sample.operators Sample.process (Sample.query [])).
  - destruct (compile_zdb_query_no_filters Sample.operators Sample.process
                (Sample.query [BindParameter (VStr "open")])) as (_ & Hloop & _).
    by apply (Hloop [PStr (quote (escape_tokens "open"))] init).
  - by apply (compile_zdb_query_no_filters Sample.operators Sample.process
                (Sample.query [BindParameter (VTable "posts")])).
Defined.

(** C2, as the claim has it, fails: with the table-establishing clause
    alone no filter clause is left to render, and the compile returns. *)
Lemma compile_zdb_query_table_only :
  compile_zdb_query Sample.operators Sample.process
    (Sample.query [BindParameter (VTable "posts")])
  = Ok "posts ==> ''".
Proof. vm_compute. reflexivity. Qed.

Lemma compile_zdb_query_title_witness :
  compile_zdb_query Sample.operators Sample.process
    {| clauses := [BinaryExpression (Column Sample.posts_title) operator.eq
                     (BindParameter (VStr "hello world"))];
       _zdb_order_by := None; _zdb_offset := VNone; _zdb_limit := VNone |}
  = Ok ("posts" +:+ " ==> " +:+ "'" +:+ "title" +:+ "="
          +:+ (dq +:+ "hello\ world" +:+ dq) +:+ "'").
Proof.
  by apply (compile_zdb_query_title Sample.operators Sample.process Sample.posts_title "=").
Defined.

(** C3, as the claim has it, fails: the output has no parentheses and the
    space is escaped. *)
Lemma compile_zdb_query_title_not_parenthesized :
  compile_zdb_query Sample.operators Sample.process
    (Sample.query [BinaryExpression (Column Sample.posts_title) operator.eq
                     (BindParameter (VStr "hello world"))])
  = Ok ("posts ==> 'title=" +:+ dq +:+ "hello\ world" +:+ dq +:+ "'")
  /\ compile_zdb_query Sample.operators Sample.process
    (Sample.query [BinaryExpression (Column Sample.posts_title) operator.eq
                     (BindParameter (VStr "hello world"))])
  <> Ok ("posts ==> '(title=" +:+ dq +:+ "hello world" +:+ dq +:+ ")'").
Proof. split; [vm_compute; reflexivity|vm_compute; discriminate]. Qed.

Lemma compile_clause_zdb_table_witness :
  compile_clause Sample.operators Sample.process (ZdbTable "users") init
  = Ok (PStr "users", init)
  /\ compile_zdb_query Sample.operators Sample.process
       {| clauses := [BinaryExpression (Column Sample.posts_title) operator.eq (ZdbTable "users")];
          _zdb_order_by := None; _zdb_offset := VNone; _zdb_limit := VNone |}
     = Ok ("posts" +:+ " ==> " +:+ "'" +:+ "title" +:+ "=" +:+ "users" +:+ "'").
Proof.
  split.
  - apply (compile_clause_zdb_table Sample.operators Sample.process "users").
  - by apply (compile_clause_zdb_table Sample.operators Sample.process "users").
Defined.


(** ** Order of rendering *)

Section Order.

Variable COMPARE_OPERATORS : operator.t -> option oper_entry.
Variable process : column -> string.

Lemma fill_app ps1 ps2 : fill (ps1 ++ ps2) = fill ps1 +:+ fill ps2.
Proof.
  induction ps1 as [|[s|c] ps1 IH]; simpl; [done|..];
    by rewrite IH, string_app_assoc.
Qed.

Lemma args_app ps1 ps2 : args process (ps1 ++ ps2) = (args process ps1 ++ args process ps2)%list.
Proof. induction ps1 as [|[s|c] ps1 IH]; simpl; [done|done|by rewrite IH]. Qed.

Lemma fill_join_pieces sep pss :
  fill (join_pieces sep pss) = PyStr.join sep (map fill pss).
Proof.
  induction pss as [|ps [|ps' pss] IH]; [done|done|].
  change (join_pieces sep (ps :: ps' :: pss))
    with (ps ++ Text sep :: join_pieces sep (ps' :: pss))%list.
  rewrite fill_app.
  change (fill (Text sep :: join_pieces sep (ps' :: pss)))
    with (sep +:+ fill (join_pieces sep (ps' :: pss))).
  by rewrite IH.
Qed.

Lemma args_join_pieces sep pss :
  args process (join_pieces sep pss) = concat (map (args process) pss).
Proof.
  induction pss as [|ps [|ps' pss] IH]; [done|simpl; by rewrite app_nil_r|].
  change (join_pieces sep (ps :: ps' :: pss))
    with (ps ++ Text sep :: join_pieces sep (ps' :: pss))%list.
  rewrite args_app.
  change (args process (Text sep :: join_pieces sep (ps' :: pss)))
    with (args process (join_pieces sep (ps' :: pss))).
  by rewrite IH.
Qed.

Lemma all_str_map l ss : all_str l = Some ss -> ss = map str l.
Proof.
  revert ss. induction l as [|[s|n|b] l IH]; intros ss H; simpl in H; try done.
  - by injection H as <-.
  - destruct (all_str l) as [ss'|]; [|done]. injection H as <-.
    simpl. by rewrite <- (IH ss' eq_refl).
Qed.

Lemma join_values_map sep l joined :
  join_values sep l = Ok joined -> joined = PyStr.join sep (map str l).
Proof.
  unfold join_values. destruct (all_str l) as [ss|] eqn:H; [|done].
  intros [= <-]. by rewrite (all_str_map _ _ H).
Qed.

Lemma rendered_leaf c st r :
  pieces COMPARE_OPERATORS process c = [Text (str r)] ->
  comparison_tables c = ∅ ->
  rendered COMPARE_OPERATORS process c st r st.
Proof.
  intros Hp Ht. unfold rendered. rewrite Hp, Ht. simpl.
  rewrite string_app_nil_r, app_nil_r, (right_id_L ∅ (∪)). done.
Qed.

Lemma traverse_sound cs :
  Forall (sound COMPARE_OPERATORS process) cs ->
  forallb (infix_only COMPARE_OPERATORS) cs = true ->
  forall st rs st',
    traverse (compile_clause COMPARE_OPERATORS process) cs st = Ok (rs, st') ->
    map str rs = map (fun c => fill (pieces COMPARE_OPERATORS process c)) cs
    /\ format_args st'
       = (format_args st
          ++ concat (map (fun c => args process (pieces COMPARE_OPERATORS process c)) cs))%list
    /\ tables st' = tables st ∪ ⋃ (map comparison_tables cs).
Proof.
  induction 1 as [|c cs Hc _ IH]; intros Hinf st rs st' H.
  - injection H as <- <-. simpl.
    by rewrite app_nil_r, (right_id_L ∅ (∪)).
  - simpl in Hinf. apply andb_true_iff in Hinf as [Hinf1 Hinf2].
    simpl in H. unfold bind in H.
    destruct (compile_clause _ _ c st) as [[r st1]|] eqn:Hr; [|done].
    destruct (traverse _ cs st1) as [[rs' st2]|] eqn:Hrs; [|done].
    injection H as <- <-.
    destruct (Hc Hinf1 _ _ _ Hr) as (Hs & Ha & Ht).
    destruct (IH Hinf2 _ _ _ Hrs) as (Hs' & Ha' & Ht').
    simpl. rewrite Hs, Hs', Ha', Ha, Ht', Ht, <- app_assoc.
    repeat split. set_solver.
Qed.

Lemma compile_clause_sound c : sound COMPARE_OPERATORS process c.
Proof.
  induction c as [v| | |text|lhs op rhs _ IHr|op cs IH|col|element| |table|] using clause_ind;
    intros Hinf st r st' H.
  - destruct v; simpl in H; try done; injection H as <- <-; by apply rendered_leaf.
  - injection H as <- <-; by apply rendered_leaf.
  - injection H as <- <-; by apply rendered_leaf.
  - injection H as <- <-; by apply rendered_leaf.
  - simpl in H, Hinf. unfold compile_binary_clause in H.
    destruct lhs as [| | | | | |l| | | |]; try done.
    destruct (annotated l); [|done].
    destruct (COMPARE_OPERATORS op) as [[s|f]|] eqn:Hop; [|done|done].
    unfold bind, tables_add in H.
    destruct (compile_clause _ _ rhs _) as [[a st1]|] eqn:Hr; [|done].
    injection H as <- <-.
    destruct (IHr Hinf _ _ _ Hr) as (Hs & Ha & Ht). simpl in Ha, Ht.
    unfold rendered. simpl. rewrite Hop. simpl.
    rewrite Hs, Ha, Ht, string_app_assoc. repeat split. set_solver.
  - simpl in H, Hinf. unfold compile_boolean_clause_list, bind in H.
    destruct (traverse _ cs st) as [[rs st1]|] eqn:Hrs; [|done].
    destruct (traverse_sound cs IH Hinf _ _ _ Hrs) as (Hs & Ha & Ht).
    assert (Hjoin : forall sep joined, join_values sep rs = Ok joined ->
              joined = fill (join_pieces sep (map (pieces COMPARE_OPERATORS process) cs))).
    { intros sep joined Hj. rewrite (join_values_map _ _ _ Hj), Hs, fill_join_pieces.
      by rewrite map_map. }
    assert (Hargs : forall sep,
              args process (Text "(" :: join_pieces sep (map (pieces COMPARE_OPERATORS process) cs)
                              ++ [Text ")"])
              = concat (map (fun c => args process (pieces COMPARE_OPERATORS process c)) cs)).
    { intros sep. simpl. by rewrite args_app, args_join_pieces, map_map, app_nil_r. }
    destruct op; try done; simpl in H; unfold lift in H;
      destruct (join_values _ rs) as [joined|] eqn:Hj; try done;
      injection H as <- <-; unfold rendered; simpl pieces;
      rewrite Hargs, <- Ha, Ht; (split; [|done]);
      simpl; rewrite fill_app, (Hjoin _ _ Hj); done.
  - simpl in H. unfold compile_column_clause, bind, format_args_append in H.
    injection H as <- <-. unfold rendered. simpl.
    rewrite string_app_nil_r, (right_id_L ∅ (∪)). done.
  - simpl in H. unfold compile_grouping, bind, lift in H.
    destruct (grouping_values element) as [values|] eqn:Hg; [|done].
    injection H as <- <-. apply rendered_leaf; [|done].
    simpl. unfold compile_grouping, bind, lift. by rewrite Hg.
  - injection H as <- <-; by apply rendered_leaf.
  - injection H as <- <-; by apply rendered_leaf.
  - done.
Qed.

(** The checks on a top-level clause: past the first position nothing is
    taken out of the query, and at most the table of the clause's own
    comparison is added. *)
Lemma check_filter_later i c st b st1 :
  check_filter (S i) c st = Ok (b, st1) ->
  b = true /\ format_args st1 = format_args st
  /\ tables st1 ∪ comparison_tables c = tables st ∪ comparison_tables c.
Proof.
  destruct c as [v| | | |lhs op rhs| | | | | |]; simpl; try done.
  - destruct v; simpl; try done; by intros [= <- <-].
  - destruct lhs as [| | | | | |l| | | |]; try done.
    unfold bind, tables_add, ret. intros [= <- <-]. simpl.
    repeat split. set_solver.
  - by intros [= <- <-].
  - by intros [= <- <-].
Qed.

Lemma check_filter_first c st b st1 :
  check_filter 0 c st = Ok (b, st1) ->
  (b = true /\ marker_tables [c] = ∅ /\ format_args st1 = format_args st
   /\ tables st1 ∪ comparison_tables c = tables st ∪ comparison_tables c)
  \/ (b = false /\ exists t, c = BindParameter (VTable t)
      /\ format_args st1 = format_args st /\ tables st1 = {[t]} ∪ tables st).
Proof.
  destruct c as [v| | | |lhs op rhs| | | | | |]; simpl; try done.
  - destruct v; simpl; try done; try (intros [= <- <-]; by left).
    unfold bind, tables_add, ret. intros [= <- <-]. right. eauto.
  - destruct lhs as [| | | | | |l| | | |]; try done.
    unfold bind, tables_add, ret. intros [= <- <-]. left. simpl.
    repeat split. set_solver.
  - intros [= <- <-]. by left.
  - intros [= <- <-]. by left.
Qed.

Lemma compile_filters_later cs :
  forallb (infix_only COMPARE_OPERATORS) cs = true ->
  forall i query st query' st',
    compile_filters COMPARE_OPERATORS process (S i) cs query st = Ok (query', st') ->
    map str query'
    = (map str query ++ map (fun c => fill (pieces COMPARE_OPERATORS process c)) cs)%list
    /\ format_args st'
       = (format_args st
          ++ concat (map (fun c => args process (pieces COMPARE_OPERATORS process c)) cs))%list
    /\ tables st' = tables st ∪ ⋃ (map comparison_tables cs).
Proof.
  induction cs as [|c cs IH]; intros Hinf i query st query' st' H.
  - injection H as <- <-. simpl. by rewrite !app_nil_r, (right_id_L ∅ (∪)).
  - simpl in Hinf. apply andb_true_iff in Hinf as [Hinf1 Hinf2].
    simpl in H. unfold bind in H.
    destruct (check_filter (S i) c st) as [[b st1]|] eqn:Hcheck; [|done].
    destruct (check_filter_later _ _ _ _ _ Hcheck) as (-> & Ha1 & Ht1).
    destruct (compile_clause _ _ c st1) as [[r st2]|] eqn:Hr; [|done].
    destruct (compile_clause_sound c Hinf1 _ _ _ Hr) as (Hs & Ha & Ht).
    unfold ret in H.
    destruct (IH Hinf2 _ _ _ _ _ H) as (Hs' & Ha' & Ht').
    rewrite Hs', Ha', Ht', Ha, Ht, Ha1, Ht1, map_app. simpl.
    rewrite Hs, <- !app_assoc. repeat split. set_solver.
Qed.

Lemma compile_filters_sound cs query st :
  forallb (infix_only COMPARE_OPERATORS) cs = true ->
  compile_filters COMPARE_OPERATORS process 0 cs [] init = Ok (query, st) ->
  map str query = map (fun c => fill (pieces COMPARE_OPERATORS process c)) (rendered_clauses cs)
  /\ format_args st
     = concat (map (fun c => args process (pieces COMPARE_OPERATORS process c))
                 (rendered_clauses cs))
  /\ tables st = query_tables cs.
Proof.
  intros Hinf H. unfold query_tables. destruct cs as [|c cs].
  - injection H as <- <-. simpl. by rewrite (right_id_L ∅ (∪)).
  - simpl in Hinf. apply andb_true_iff in Hinf as [Hinf1 Hinf2].
    simpl in H. unfold bind in H.
    destruct (check_filter 0 c init) as [[b st1]|] eqn:Hcheck; [|done].
    destruct (check_filter_first _ _ _ _ Hcheck)
      as [(-> & Hm & Ha1 & Ht1)|(-> & t & -> & Ha1 & Ht1)].
    + destruct (compile_clause _ _ c st1) as [[r st2]|] eqn:Hr; [|done].
      destruct (compile_clause_sound c Hinf1 _ _ _ Hr) as (Hs & Ha & Ht).
      unfold ret in H.
      destruct (compile_filters_later cs Hinf2 _ _ _ _ _ H) as (Hs' & Ha' & Ht').
      assert (Hrc : rendered_clauses (c :: cs) = c :: cs).
      { by destruct c as [[]| | | | | | | | | |]. }
      rewrite Hrc, Hs', Ha', Ht', Ha, Ht, Ha1, Ht1.
      change (marker_tables (c :: cs)) with (marker_tables [c]). rewrite Hm. simpl.
      rewrite Hs. repeat split. set_solver.
    + unfold ret in H.
      destruct (compile_filters_later cs Hinf2 _ _ _ _ _ H) as (Hs' & Ha' & Ht').
      rewrite Hs', Ha', Ht', Ha1, Ht1. simpl. repeat split. set_solver.
Qed.


(** C9 (as the code has it), for a query whose comparison operators have
    infix fragments: the text a clause renders to is the text of its
    pieces, taken in input order, and the format arguments it appends are
    those of the holes among these pieces, the placeholders of the bare
    columns, in the same order, after the arguments that were there; the
    children of a combination and the top-level clauses of a query give
    their pieces in input order; and the output of a compile that returns
    is built from the pieces of the query under its one table, its format
    arguments being the arguments of the holes from left to right.  A
    placeholder text inside a literal piece is no hole and has no
    argument. *)
Theorem compile_zdb_query_in_order element :
  forallb (infix_only COMPARE_OPERATORS) (clauses element) = true ->
  let filter := query_pieces COMPARE_OPERATORS process (clauses element) in
  (forall c st r st',
     infix_only COMPARE_OPERATORS c = true ->
     compile_clause COMPARE_OPERATORS process c st = Ok (r, st') ->
     str r = fill (pieces COMPARE_OPERATORS process c)
     /\ format_args st'
        = (format_args st ++ args process (pieces COMPARE_OPERATORS process c))%list)
  /\ (forall op cs,
        fill (pieces COMPARE_OPERATORS process (BooleanClauseList op cs))
        = "(" +:+ PyStr.join (match op with operator.or_ => " or " | _ => " and " end)
                    (map (fun c => fill (pieces COMPARE_OPERATORS process c)) cs) +:+ ")"
        /\ args process (pieces COMPARE_OPERATORS process (BooleanClauseList op cs))
           = concat (map (fun c => args process (pieces COMPARE_OPERATORS process c)) cs))
  /\ fill filter
     = PyStr.join " and " (map (fun c => fill (pieces COMPARE_OPERATORS process c))
                             (rendered_clauses (clauses element)))
  /\ args process filter
     = concat (map (fun c => args process (pieces COMPARE_OPERATORS process c))
                 (rendered_clauses (clauses element)))
  /\ (forall sql,
        compile_zdb_query COMPARE_OPERATORS process element = Ok sql ->
        exists table limit,
          query_tables (clauses element) = {[table]}
          /\ order_prefix element = Ok limit
          /\ sql = table +:+ " ==> " +:+ "'" +:+ limit
                   +:+ match args process filter with
                       | [] => fill filter
                       | _ :: _ => "format('" +:+ fill filter +:+ "', "
                                     +:+ PyStr.join ", " (args process filter) +:+ ")"
                       end +:+ "'").
Proof.
  intros Hinf filter. split; [|split; [|split; [|split]]].
  - intros c st r st' Hc H.
    by destruct (compile_clause_sound c Hc _ _ _ H) as (Hs & Ha & _).
  - intros op cs. split.
    + simpl. by rewrite fill_app, fill_join_pieces, map_map.
    + simpl. by rewrite args_app, args_join_pieces, map_map, app_nil_r.
  - unfold filter, query_pieces. by rewrite fill_join_pieces, map_map.
  - unfold filter, query_pieces. by rewrite args_join_pieces, map_map.
  - intros sql H.
    destruct (compile_filters COMPARE_OPERATORS process 0 (clauses element) [] init)
      as [[query st]|e] eqn:Hloop.
    + rewrite (compile_zdb_query_after_loop _ _ _ _ _ Hloop) in H.
      destruct (compile_filters_sound _ _ _ Hinf Hloop) as (Hs & Ha & Ht).
      destruct (decide (size (tables st) = 0%nat)); [done|].
      destruct (decide (1 < size (tables st))%nat); [done|].
      destruct (order_prefix element) as [limit|]; [|done].
      destruct (join_values " and " query) as [joined|] eqn:Hj; [|done].
      destruct (size_1_elem_of (tables st)) as [table Htable]; [lia|].
      apply leibniz_equiv in Htable. rewrite Htable, pop_singleton in H.
      exists table, limit. split; [by rewrite <- Ht|]. split; [done|].
      assert (Hjoined : joined = fill filter).
      { rewrite (join_values_map _ _ _ Hj), Hs. unfold filter, query_pieces.
        by rewrite fill_join_pieces, map_map. }
      assert (Hargs : format_args st = args process filter).
      { rewrite Ha. unfold filter, query_pieces. by rewrite args_join_pieces, map_map. }
      rewrite <- Hargs, <- Hjoined.
      destruct (format_args st); injection H as <-;
        by rewrite !string_app_assoc.
    + unfold compile_zdb_query in H. by rewrite Hloop in H.
Qed.

End Order.



(** C9, as the claim has it, fails.  A literal text can hold the text of a
    placeholder: with a grouping of the text [%%s] before a bare column the
    filter text has two placeholders and the list one argument, which
    belongs to the second.  And the list is the one the loop has left:
    under a rendering function of the operator table that works on the
    format arguments, here one that leaves none, the placeholder of a bare
    column rendered before it has no argument. *)
Lemma compile_zdb_query_placeholder_without_argument :
  compile_zdb_query Sample.operators Sample.process
    (Sample.query [BindParameter (VTable "posts");
                   BinaryExpression (Column Sample.posts_title) operator.eq
                     (Grouping [BindParameter (VStr "%%s")]);
                   Column Sample.posts_title])
  = Ok ("posts ==> 'format('"
          +:+ ("title=(" +:+ quote "%%s" +:+ ") and " +:+ quote "%%s")
          +:+ "', "
          +:+ PyStr.join ", " ["replace(posts.title, '" +:+ dq +:+ "', '')"]
          +:+ ")'")
  /\ occurrences (quote "%%s") ("title=(" +:+ quote "%%s" +:+ ") and " +:+ quote "%%s") = 2%nat
  /\ length ["replace(posts.title, '" +:+ dq +:+ "', '')"] = 1%nat
  /\ compile_zdb_query sample_operators_fn Sample.process
       (Sample.query [BindParameter (VTable "posts");
                      Column Sample.posts_title;
                      BinaryExpression (Column Sample.posts_title) (operator.other "is_")
                        Null])
     = Ok ("posts ==> '" +:+ (quote "%%s" +:+ " and title:null") +:+ "'")
  /\ occurrences (quote "%%s") (quote "%%s" +:+ " and title:null") = 1%nat.
Proof. split; [|split; [|split; [|split]]]; vm_compute; reflexivity. Qed.

Lemma compile_zdb_query_in_order_witness :
  exists table limit,
    query_tables [BindParameter (VTable "posts");
                  Column Sample.posts_title;
                  BooleanClauseList operator.or_
                    [Column Sample.users_name; TextClause "x:1"]] = {[table]}
    /\ order_prefix (Sample.query [BindParameter (VTable "posts");
                                Column Sample.posts_title;
                                BooleanClauseList operator.or_
                                  [Column Sample.users_name; TextClause "x:1"]])
    = Ok limit
    /\ "posts ==> 'format('" +:+ quote "%%s" +:+ " and (" +:+ quote "%%s"
         +:+ " or x:1)', replace(posts.title, '" +:+ dq +:+ "', ''), replace(users.name, '"
         +:+ dq +:+ "', ''))'"
       = table +:+ " ==> " +:+ "'" +:+ limit
           +:+ "format('" +:+ quote "%%s" +:+ " and (" +:+ quote "%%s" +:+ " or x:1)"
           +:+ "', "
           +:+ PyStr.join ", " ["replace(posts.title, '" +:+ dq +:+ "', '')";
                                 "replace(users.name, '" +:+ dq +:+ "', '')"]
           +:+ ")" +:+ "'".
Proof.
  destruct (compile_zdb_query_in_order Sample.operators Sample.process
              (Sample.query [BindParameter (VTable "posts");
                             Column Sample.posts_title;
                             BooleanClauseList operator.or_
                               [Column Sample.users_name; TextClause "x:1"]]) eq_refl)
    as (_ & _ & _ & _ & Hsql).
  apply (Hsql ("posts ==> 'format('" +:+ quote "%%s" +:+ " and (" +:+ quote "%%s"
         +:+ " or x:1)', replace(posts.title, '" +:+ dq +:+ "', ''), replace(users.name, '"
         +:+ dq +:+ "', ''))'")).
  vm_compute. reflexivity.
Defined.

(** * Further properties *)

(** ** Token escaper *)

Lemma is_token_cases a :
  is_token a = Ascii.eqb a apostrophe || reserved a.
Proof. reflexivity. Qed.

Lemma escape_char_cases a :
  (a = apostrophe /\ escape_char a = EmptyString)
  \/ (a <> apostrophe /\ reserved a = true /\ escape_char a = escaped a)
  \/ (a <> apostrophe /\ reserved a = false /\ escape_char a = String a EmptyString).
Proof.
  unfold escape_char. destruct (Ascii.eqb_spec a apostrophe) as [->|Hne]; [by left|].
  right. destruct (reserved a); [left|right]; done.
Qed.

Lemma escape_spec_no_apostrophe inp : apostrophe ∉ PyStr.chars (escape_spec inp).
Proof.
  apply (escaped_text_no_apostrophe (fun _ => True)).
  apply escape_spec_shape. by apply Forall_forall.
Qed.

(** The output never starts with a reserved character. *)
Lemma escape_spec_head inp :
  match escape_spec inp with
  | String b _ => reserved b = false
  | EmptyString => True
  end.
Proof.
  induction inp as [|a rest IH]; simpl; [done|].
  destruct (escape_char_cases a) as [(-> & ->)|[(_ & Hr & ->)|(_ & Hr & ->)]]; simpl.
  - exact IH.
  - reflexivity.
  - exact Hr.
Qed.

Lemma strip_apostrophes_cons a rest :
  strip_apostrophes (String a rest)
  = if Ascii.eqb a apostrophe then strip_apostrophes rest
    else String a (strip_apostrophes rest).
Proof. reflexivity. Qed.

Lemma unescape_escape_spec inp : unescape (escape_spec inp) = strip_apostrophes inp.
Proof.
  induction inp as [|a rest IH]; [done|].
  rewrite strip_apostrophes_cons. simpl escape_spec.
  destruct (escape_char_cases a) as [(-> & ->)|[(Hne & Hr & ->)|(Hne & Hr & ->)]].
  - rewrite string_app_nil_l, IH. reflexivity.
  - destruct (Ascii.eqb_spec a apostrophe); [done|].
    unfold escaped. rewrite !string_app_cons, string_app_nil_l. simpl.
    rewrite Hr, IH. reflexivity.
  - destruct (Ascii.eqb_spec a apostrophe); [done|].
    rewrite string_app_cons, string_app_nil_l.
    pose proof (escape_spec_head rest) as Hhead.
    simpl. destruct (Ascii.eqb_spec a backslash) as [->|_].
    + destruct (escape_spec rest) as [|b out] eqn:Hout.
      * rewrite <- IH. reflexivity.
      * rewrite Hhead, <- IH. reflexivity.
    + by rewrite IH.
Qed.

Lemma escape_tokens_fixed (inp : string) :
  escape_tokens inp = inp <-> count_chars is_token inp = 0%nat.
Proof.
  rewrite escape_tokens_spec. induction inp as [|a rest IH]; [done|].
  simpl. rewrite is_token_cases.
  destruct (escape_char_cases a) as [(-> & ->)|[(Hne & Hr & ->)|(Hne & Hr & ->)]].
  - split; [|done]. rewrite string_app_nil_l. intros H.
    destruct (escape_spec_no_apostrophe rest). rewrite H. apply list_elem_of_here.
  - rewrite Hr, orb_true_r. split; [|done].
    unfold escaped. rewrite !string_app_cons, string_app_nil_l.
    intros [= <- _]. by vm_compute in Hr.
  - rewrite Hr, orb_false_r. destruct (Ascii.eqb_spec a apostrophe); [done|].
    rewrite string_app_cons, string_app_nil_l. simpl. rewrite <- IH.
    split; [by intros [= ->]|by intros ->].
Qed.

(** X1: [escape_tokens] gives a text back unchanged exactly when the text
    holds none of the tokens: no apostrophe and no reserved character. *)
Theorem escape_tokens_unchanged (inp : string) :
  escape_tokens inp = inp <-> count_chars is_token inp = 0%nat.
Proof. apply escape_tokens_fixed. Qed.

(** X2: the length of the output is the length of the input, less one for
    each apostrophe and plus one for each reserved character; so it is at
    most twice the length of the input. *)
Theorem escape_tokens_length (inp : string) :
  (String.length (escape_tokens inp) + count_chars (fun a => Ascii.eqb a apostrophe) inp
   = String.length inp + count_chars reserved inp)%nat
  /\ (String.length (escape_tokens inp) <= 2 * String.length inp)%nat.
Proof.
  rewrite escape_tokens_spec. induction inp as [|a rest [IH1 IH2]]; [done|].
  simpl escape_spec. simpl count_chars. simpl String.length.
  destruct (escape_char_cases a) as [(-> & ->)|[(Hne & Hr & ->)|(Hne & Hr & ->)]].
  - rewrite string_app_nil_l. simpl. lia.
  - unfold escaped. rewrite !string_app_cons, string_app_nil_l, Hr. simpl.
    destruct (Ascii.eqb_spec a apostrophe); [done|]. lia.
  - rewrite string_app_cons, string_app_nil_l, Hr. simpl.
    destruct (Ascii.eqb_spec a apostrophe); [done|]. lia.
Qed.

(** X3: escaping loses the apostrophes and nothing else: reading the output
    back, with the backslash before each reserved character dropped, gives
    the input without its apostrophes; so two inputs with the same output
    differ in their apostrophes only. *)
Theorem escape_tokens_unescape (inp inp' : string) :
  unescape (escape_tokens inp) = strip_apostrophes inp
  /\ (escape_tokens inp = escape_tokens inp' ->
      strip_apostrophes inp = strip_apostrophes inp').
Proof.
  rewrite !escape_tokens_spec. split; [apply unescape_escape_spec|].
  intros H. by rewrite <- !unescape_escape_spec, H.
Qed.

Lemma escape_tokens_unescape_witness :
  unescape (escape_tokens "it's a") = strip_apostrophes "it's a"
  /\ strip_apostrophes "it's a" = strip_apostrophes "its' a".
Proof.
  destruct (escape_tokens_unescape "it's a" "its' a") as [Hback Hsame].
  split; [exact Hback|]. apply Hsame. reflexivity.
Defined.

(** X4: [escape_tokens] works character by character: the output of a
    concatenation is the concatenation of the outputs, and nothing comes
    out of the empty text. *)
Theorem escape_tokens_concat (s1 s2 : string) :
  escape_tokens (s1 +:+ s2) = escape_tokens s1 +:+ escape_tokens s2
  /\ escape_tokens EmptyString = EmptyString.
Proof. split; [apply escape_tokens_app|reflexivity]. Qed.

(** ** Limit/Order builder *)

(** X5: [compile_limit] returns exactly when offset and limit are integers
    and the order is a score order, or a unary expression whose first base
    column is a [ZdbColumn]; the prefix then names [_score] or that column,
    with [asc] for the modifier [asc_op] and [desc] for any other. *)
Theorem compile_limit_returns (offset limit : value) (order_by : order_spec) (s : string) :
  compile_limit offset limit order_by = Ok s <->
  exists o l,
    as_int offset = Some o /\ as_int limit = Some l
    /\ ((exists direction,
           order_by = ZdbScore direction /\ s = limit_text "_score" direction o l)
        \/ (exists column columns modifier,
              order_by = UnaryExpression (column :: columns) modifier
              /\ zdb column = true /\ annotated column = false
              /\ s = limit_text (name column)
                       (match modifier with operator.asc_op => "asc" | _ => "desc" end)
                       o l)).
Proof.
  unfold compile_limit, limit_text. split.
  - destruct (as_int offset) as [o|]; [|done].
    destruct (as_int limit) as [l|]; [|done].
    intros H. exists o, l. split; [done|]. split; [done|].
    destruct order_by as [direction|[|column columns] modifier| |]; try done.
    + left. exists direction. by injection H as <-.
    + right. exists column, columns, modifier.
      destruct (zdb column); [|done]. destruct (annotated column); [done|].
      by injection H as <-.
  - intros (o & l & -> & -> & [(direction & -> & ->)|(column & columns & modifier & -> & Hz & Ha & ->)]).
    + reflexivity.
    + by rewrite Hz, Ha.
Qed.

(** ** Raw query: clauses that make the compile fail *)

Section Refusals.

Variable COMPARE_OPERATORS : operator.t -> option oper_entry.
Variable process : column -> string.

(** The loop over a list of clauses in two parts. *)
Lemma compile_filters_app pre cs :
  forall i query st,
    compile_filters COMPARE_OPERATORS process i (pre ++ cs) query st
    = match compile_filters COMPARE_OPERATORS process i pre query st with
      | Ok (query', st') =>
          compile_filters COMPARE_OPERATORS process (i + length pre) cs query' st'
      | Raise e => Raise e
      end.
Proof.
  induction pre as [|c pre IH]; intros i query st.
  - simpl. by rewrite Nat.add_0_r.
  - simpl. unfold bind.
    destruct (check_filter i c st) as [[b st1]|]; [|done].
    destruct b.
    + destruct (compile_clause _ _ c st1) as [[r st2]|]; [|done].
      unfold ret. by rewrite IH, Nat.add_succ_r.
    + unfold ret. by rewrite IH, Nat.add_succ_r.
Qed.

(** The loop only ever appends to the query. *)
Lemma compile_filters_extends cs :
  forall i query st query' st',
    compile_filters COMPARE_OPERATORS process i cs query st = Ok (query', st') ->
    exists rest, query' = (query ++ rest)%list.
Proof.
  induction cs as [|c cs IH]; intros i query st query' st' H.
  - injection H as <- <-. exists []. by rewrite app_nil_r.
  - simpl in H. unfold bind in H.
    destruct (check_filter i c st) as [[b st1]|]; [|done].
    destruct b.
    + destruct (compile_clause _ _ c st1) as [[r st2]|]; [|done].
      unfold ret in H. destruct (IH _ _ _ _ _ H) as [rest ->].
      exists (r :: rest). by rewrite <- app_assoc.
    + unfold ret in H. by apply (IH _ _ _ _ _ H).
Qed.

Lemma all_str_app l1 l2 :
  all_str (l1 ++ l2)
  = match all_str l1, all_str l2 with
    | Some ss1, Some ss2 => Some (ss1 ++ ss2)%list
    | _, _ => None
    end.
Proof.
  induction l1 as [|[s|n|b] l1 IH]; simpl.
  - by destruct (all_str l2).
  - rewrite IH. destruct (all_str l1); [|done]. by destruct (all_str l2).
  - done.
  - done.
Qed.

Lemma compile_zdb_query_loop_raises element e :
  compile_filters COMPARE_OPERATORS process 0 (clauses element) [] init = Raise e ->
  compile_zdb_query COMPARE_OPERATORS process element = Raise e.
Proof. intros H. unfold compile_zdb_query. by rewrite H. Qed.

(** A clause on which the check of the loop raises [e] at every position
    past [n] makes the compile fail, with [e] when the clauses before it
    raise nothing. *)
Lemma compile_zdb_query_refuses element pre c post n e :
  clauses element = (pre ++ c :: post)%list ->
  (n <= length pre)%nat ->
  (forall i st, (n <= i)%nat -> check_filter i c st = Raise e) ->
  (exists e', compile_zdb_query COMPARE_OPERATORS process element = Raise e')
  /\ (forall query st,
        compile_filters COMPARE_OPERATORS process 0 pre [] init = Ok (query, st) ->
        compile_zdb_query COMPARE_OPERATORS process element = Raise e).
Proof.
  intros Hcs Hn Hcheck.
  assert (Hloop : forall query st,
    compile_filters COMPARE_OPERATORS process 0 pre [] init = Ok (query, st) ->
    compile_zdb_query COMPARE_OPERATORS process element = Raise e).
  { intros query st Hpre. apply compile_zdb_query_loop_raises.
    rewrite Hcs, compile_filters_app, Hpre. simpl. unfold bind.
    by rewrite Hcheck. }
  split; [|exact Hloop].
  destruct (compile_filters COMPARE_OPERATORS process 0 pre [] init)
    as [[query st]|e'] eqn:Hpre.
  - exists e. by apply (Hloop query st).
  - exists e'. apply compile_zdb_query_loop_raises.
    by rewrite Hcs, compile_filters_app, Hpre.
Qed.

(** X6: a table-establishing clause anywhere but in the first position
    makes the compile fail, whatever the operator table: with the error
    "Table can be specified only as first param" when the clauses before it
    raise nothing. *)
Theorem compile_zdb_query_misplaced_table element pre t post :
  clauses element = (pre ++ BindParameter (VTable t) :: post)%list ->
  pre <> [] ->
  (exists e, compile_zdb_query COMPARE_OPERATORS process element = Raise e)
  /\ (forall query st,
        compile_filters COMPARE_OPERATORS process 0 pre [] init = Ok (query, st) ->
        compile_zdb_query COMPARE_OPERATORS process element
        = Raise (ValueError "Table can be specified only as first param")).
Proof.
  intros Hcs Hpre.
  apply (compile_zdb_query_refuses element pre _ post 1 _ Hcs).
  - destruct pre; [done|]. simpl. lia.
  - intros [|i] st Hi; [lia|]. reflexivity.
Qed.

(** X7: a top-level clause that is no comparison, no bound parameter, no
    combination and no column makes the compile fail, whatever the operator
    table and wherever it stands: with the error "Unsupported filter" when
    the clauses before it raise nothing. *)
Theorem compile_zdb_query_unsupported_filter element pre c post :
  clauses element = (pre ++ c :: post)%list ->
  unsupported_filter c = true ->
  (exists e, compile_zdb_query COMPARE_OPERATORS process element = Raise e)
  /\ (forall query st,
        compile_filters COMPARE_OPERATORS process 0 pre [] init = Ok (query, st) ->
        compile_zdb_query COMPARE_OPERATORS process element
        = Raise (ValueError "Unsupported filter")).
Proof.
  intros Hcs Hc.
  apply (compile_zdb_query_refuses element pre _ post 0 _ Hcs); [lia|].
  intros i st _. by destruct c.
Qed.

(** X8: a top-level bound parameter whose value is an integer or a boolean
    is handed back by the renderer as it is, and the query never compiles:
    when the loop raises nothing and leaves one table, and the order prefix
    builds, joining the clauses raises [TypeError]. *)
Theorem compile_zdb_query_int_parameter element pre c post :
  clauses element = (pre ++ c :: post)%list ->
  int_parameter c = true ->
  (exists e, compile_zdb_query COMPARE_OPERATORS process element = Raise e)
  /\ (forall query st t limit,
        compile_filters COMPARE_OPERATORS process 0 (clauses element) [] init = Ok (query, st) ->
        tables st = {[t]} ->
        order_prefix element = Ok limit ->
        compile_zdb_query COMPARE_OPERATORS process element = Raise TypeError).
Proof.
  intros Hcs Hc.
  assert (Hjoin : forall query st,
    compile_filters COMPARE_OPERATORS process 0 (clauses element) [] init = Ok (query, st) ->
    join_values " and " query = Raise TypeError).
  { intros query st H. rewrite Hcs, compile_filters_app in H.
    destruct (compile_filters _ _ 0 pre [] init) as [[q1 st1]|]; [|done].
    assert (Hr : exists r, all_str [r] = None /\ forall i,
              check_filter i c st1 = Ok (true, st1)
              /\ compile_clause COMPARE_OPERATORS process c st1 = Ok (r, st1)).
    { destruct c as [[]| | | | | | | | | |]; try done.
      - by exists (PInt n).
      - by exists (PBool b). }
    destruct Hr as (r & Hr & Hc').
    simpl in H. unfold bind in H.
    destruct (Hc' (length pre)) as [Hck Hcc]. rewrite Hck, Hcc in H. unfold ret in H.
    destruct (compile_filters_extends _ _ _ _ _ _ H) as [rest ->].
    unfold join_values. rewrite !all_str_app, Hr. by destruct (all_str q1). }
  split.
  - destruct (compile_filters COMPARE_OPERATORS process 0 (clauses element) [] init)
      as [[query st]|e] eqn:Hloop.
    + rewrite (compile_zdb_query_after_loop _ _ _ _ _ Hloop), (Hjoin _ _ eq_refl).
      destruct (decide _); [eauto|]. destruct (decide _); [eauto|].
      destruct (order_prefix element); eauto.
    + exists e. by apply compile_zdb_query_loop_raises.
  - intros query st t limit Hloop Ht Hl.
    rewrite (compile_zdb_query_after_loop _ _ _ _ _ Hloop), Ht, size_singleton, Hl,
      (Hjoin _ _ Hloop).
    destruct (decide (1 = 0)%nat); [lia|].
    destruct (decide (1 < 1)%nat); [lia|]. done.
Qed.

(** X9: without a score order or a unary expression as order, offset and
    limit are never read: the compile gives the same result whatever they
    are.  Under such an order they are read before the clauses are joined:
    when the loop raises nothing and leaves one table, an offset or a limit
    that is no integer makes the compile fail. *)
Theorem compile_zdb_query_offset_limit cs order_by offset limit :
  (no_order order_by = true ->
   forall offset' limit',
     compile_zdb_query COMPARE_OPERATORS process
       {| clauses := cs; _zdb_order_by := order_by;
          _zdb_offset := offset; _zdb_limit := limit |}
     = compile_zdb_query COMPARE_OPERATORS process
         {| clauses := cs; _zdb_order_by := order_by;
            _zdb_offset := offset'; _zdb_limit := limit' |})
  /\ (no_order order_by = false ->
      as_int offset = None \/ as_int limit = None ->
      forall query st t,
        compile_filters COMPARE_OPERATORS process 0 cs [] init = Ok (query, st) ->
        tables st = {[t]} ->
        compile_zdb_query COMPARE_OPERATORS process
          {| clauses := cs; _zdb_order_by := order_by;
             _zdb_offset := offset; _zdb_limit := limit |}
        = Raise (Exception "Expected int for zdb LIMIT offset and/or limit")).
Proof.
  split.
  - intros Hno offset' limit'. unfold compile_zdb_query, order_prefix. simpl.
    by destruct order_by as [[]|].
  - intros Hord Hint query st t Hloop Ht.
    rewrite (compile_zdb_query_after_loop _ _
               {| clauses := cs; _zdb_order_by := order_by;
                  _zdb_offset := offset; _zdb_limit := limit |} query st Hloop),
      Ht, size_singleton.
    destruct (decide (1 = 0)%nat); [lia|].
    destruct (decide (1 < 1)%nat); [lia|].
    assert (Hlimit : forall o, compile_limit offset limit o
              = Raise (Exception "Expected int for zdb LIMIT offset and/or limit")).
    { intros o. unfold compile_limit. destruct Hint as [->| ->]; [done|].
      by destruct (as_int offset). }
    unfold order_prefix. simpl.
    destruct order_by as [[]|]; try done; by rewrite Hlimit.
Qed.

End Refusals.

(** ** Combinations *)

Section Combinations.

Variable COMPARE_OPERATORS : operator.t -> option oper_entry.
Variable process : column -> string.

Lemma traverse_app {A B} (f : A -> M B) pre cs :
  forall st,
    traverse f (pre ++ cs) st
    = match traverse f pre st with
      | Ok (rs1, st1) =>
          match traverse f cs st1 with
          | Ok (rs2, st2) => Ok ((rs1 ++ rs2)%list, st2)
          | Raise e => Raise e
          end
      | Raise e => Raise e
      end.
Proof.
  induction pre as [|x pre IH]; intros st; simpl.
  - by destruct (traverse f cs st) as [[rs2 st2]|].
  - unfold bind. destruct (f x st) as [[y st1]|]; [|done].
    fold (traverse f). rewrite IH.
    destruct (traverse f pre st1) as [[rs1 st2]|]; [|done].
    unfold ret. by destruct (traverse f cs st2) as [[rs2 st3]|].
Qed.

(** The values of the children never join when one child is an integer
    parameter. *)
Lemma traverse_int_parameter pre c post st rs st' :
  int_parameter c = true ->
  traverse (compile_clause COMPARE_OPERATORS process) (pre ++ c :: post) st = Ok (rs, st') ->
  all_str rs = None.
Proof.
  intros Hc H. rewrite traverse_app in H.
  destruct (traverse _ pre st) as [[rs1 st1]|]; [|done].
  destruct (traverse _ (c :: post) st1) as [[rs2 st2]|] eqn:H2; [|done].
  injection H as <- <-. rewrite all_str_app.
  assert (all_str rs2 = None) as ->; [|by destruct (all_str rs1)].
  simpl in H2. unfold bind in H2.
  destruct c as [[]| | | | | | | | | |]; try done; simpl in H2;
    destruct (traverse _ post st1) as [[rs3 st3]|]; try done;
    by injection H2 as <- <-.
Qed.

(** X10: a combination whose operator is neither [and_] nor [or_] never
    renders, and neither does one with an integer or boolean parameter
    among its children: with [and_] or [or_], when the children raise
    nothing, joining them raises [TypeError].  A combination of no child
    under [and_] or [or_] renders to an empty pair of parentheses. *)
Theorem compile_clause_combination op cs st :
  (op <> operator.and_ -> op <> operator.or_ ->
   exists e, compile_clause COMPARE_OPERATORS process (BooleanClauseList op cs) st = Raise e)
  /\ (forall pre c post,
        cs = (pre ++ c :: post)%list -> int_parameter c = true ->
        (exists e,
           compile_clause COMPARE_OPERATORS process (BooleanClauseList op cs) st = Raise e)
        /\ (forall rs st',
              traverse (compile_clause COMPARE_OPERATORS process) cs st = Ok (rs, st') ->
              op = operator.and_ \/ op = operator.or_ ->
              compile_clause COMPARE_OPERATORS process (BooleanClauseList op cs) st
              = Raise TypeError))
  /\ (cs = [] -> op = operator.and_ \/ op = operator.or_ ->
      compile_clause COMPARE_OPERATORS process (BooleanClauseList op cs) st
      = Ok (PStr "()", st)).
Proof.
  split; [|split].
  - intros Hand Hor. simpl. unfold compile_boolean_clause_list, bind.
    destruct (traverse _ cs st) as [[rs st1]|]; [|eauto].
    destruct op; try done; eauto.
  - intros pre c post -> Hc.
    assert (Hjoin : forall rs st',
      traverse (compile_clause COMPARE_OPERATORS process) (pre ++ c :: post) st = Ok (rs, st') ->
      op = operator.and_ \/ op = operator.or_ ->
      compile_clause COMPARE_OPERATORS process (BooleanClauseList op (pre ++ c :: post)) st
      = Raise TypeError).
    { intros rs st' Hrs Hop. simpl. unfold compile_boolean_clause_list, bind.
      rewrite Hrs. unfold lift, join_values.
      rewrite (traverse_int_parameter _ _ _ _ _ _ Hc Hrs).
      by destruct Hop as [-> | ->]. }
    split; [|exact Hjoin].
    destruct (traverse (compile_clause COMPARE_OPERATORS process) (pre ++ c :: post) st)
      as [[rs st1]|e] eqn:Hrs.
    + destruct op; try (exists TypeError; apply (Hjoin rs st1 eq_refl); auto; fail);
        simpl; unfold compile_boolean_clause_list, bind; rewrite Hrs; eauto.
    + exists e. simpl. unfold compile_boolean_clause_list, bind. by rewrite Hrs.
  - intros -> [-> | ->]; reflexivity.
Qed.

(** X11: on a tree whose comparison operators have infix fragments, a call
    of the renderer that returns has added to the table set exactly the
    tables of the comparisons of the tree, and has only appended to the
    format arguments: no table and no argument is ever taken away. *)
Theorem compile_clause_grows c st r st' :
  infix_only COMPARE_OPERATORS c = true ->
  compile_clause COMPARE_OPERATORS process c st = Ok (r, st') ->
  tables st' = tables st ∪ comparison_tables c
  /\ (tables st ⊆ tables st')
  /\ (format_args st `prefix_of` format_args st').
Proof.
  intros Hinf H.
  destruct (compile_clause_sound COMPARE_OPERATORS process c Hinf _ _ _ H) as (_ & Ha & Ht).
  split; [done|]. split.
  - rewrite Ht. apply union_subseteq_l.
  - rewrite Ha. by eexists.
Qed.

End Combinations.

(** ** Count aggregate and JSON query *)

Section JsonProperties.

Variable dumps : value -> result string.

(** Doubling the apostrophes of a text gives the body of a SQL literal
    that stands for the text. *)
Lemma sql_literal_body_doubled s :
  sql_literal_body (PyStr.replace apostrophe "''" s) = Some s.
Proof.
  induction s as [|a rest IH]; [done|]. simpl PyStr.replace.
  destruct (Ascii.eqb_spec a apostrophe) as [->|Hne].
  - rewrite !string_app_cons, string_app_nil_l. simpl. by rewrite IH.
  - simpl. destruct (Ascii.eqb_spec a apostrophe); [done|]. by rewrite IH.
Qed.

(** X12: the count aggregate and the JSON query compile on the same
    inputs, exactly two clauses of which the first binds a table reference
    and the second a value that [json.dumps] serializes, and they embed
    the same table name and the same literal; with another number of
    clauses each raises its own [ValueError]. *)
Theorem compile_zdb_count_json clauses :
  (length clauses <> 2%nat ->
   compile_zdb_count dumps clauses
   = Raise (ValueError "Incorrect params, must be zdb_count(table, query)")
   /\ compile_zdb_json dumps clauses
      = Raise (ValueError "Incorrect params, must be zdb_json_query(table, dict)"))
  /\ (forall sql,
        compile_zdb_count dumps clauses = Ok sql <->
        exists table v query,
          clauses = [BindParameter (VTable table); BindParameter v]
          /\ dumps v = Ok query
          /\ sql = "zdb.count('" +:+ table +:+ "', '"
                     +:+ PyStr.replace apostrophe "''" query +:+ "')"
          /\ compile_zdb_json dumps clauses
             = Ok (table +:+ " ==> '" +:+ PyStr.replace apostrophe "''" query +:+ "'"))
  /\ (forall sql,
        compile_zdb_json dumps clauses = Ok sql ->
        exists sql', compile_zdb_count dumps clauses = Ok sql').
Proof.
  split; [|split].
  - intros Hlen. by destruct clauses as [|c0 [|c1 [|c2 cs]]].
  - intros sql. split.
    + destruct clauses as [|c0 [|c1 [|c2 cs]]]; try done.
      destruct c0 as [[]| | | | | | | | | |]; try done.
      destruct c1 as [v| | | | | | | | | |]; try done.
      simpl. destruct (dumps v) as [query|] eqn:Hv; [|done].
      intros [= <-]. by exists tablename, v, query.
    + intros (table & v & query & -> & Hv & -> & _). simpl. by rewrite Hv.
  - intros sql.
    destruct clauses as [|c0 [|c1 [|c2 cs]]]; try done.
    destruct c0 as [[]| | | | | | | | | |]; try done.
    destruct c1 as [v| | | | | | | | | |]; try done.
    simpl. destruct (dumps v) as [query|]; [eauto|done].
Qed.

(** X13: whatever apostrophes the JSON text holds, the text is embedded as
    the body of a SQL string literal that stands for it: each apostrophe
    is doubled, so none ends the literal early.  This holds of the count
    aggregate and of the JSON query. *)
Theorem compile_zdb_json_literal table v query :
  dumps v = Ok query ->
  exists body,
    sql_literal_body body = Some query
    /\ compile_zdb_json dumps [BindParameter (VTable table); BindParameter v]
       = Ok (table +:+ " ==> '" +:+ body +:+ "'")
    /\ compile_zdb_count dumps [BindParameter (VTable table); BindParameter v]
       = Ok ("zdb.count('" +:+ table +:+ "', '" +:+ body +:+ "')").
Proof.
  intros Hv. exists (PyStr.replace apostrophe "''" query).
  split; [apply sql_literal_body_doubled|].
  simpl. by rewrite Hv.
Qed.

End JsonProperties.

(** ** Text in a grouping and in a bound parameter *)

Lemma quote_inj s1 s2 : quote s1 = quote s2 -> s1 = s2.
Proof.
  unfold quote, dq. rewrite !string_app_cons, !string_app_nil_l.
  intros [= H]. revert s2 H.
  induction s1 as [|a s1 IH]; intros [|b s2] H; try done.
  - rewrite string_app_nil_l, string_app_cons in H. injection H as _ H.
    by destruct s2.
  - rewrite string_app_nil_l, string_app_cons in H. injection H as _ H.
    by destruct s1.
  - rewrite !string_app_cons in H. injection H as -> H. f_equal. by apply IH.
Qed.

(** X14: a text element of a grouping is put between double quotes as it
    is, with the accumulators untouched, where a bound text parameter is
    escaped first: the same text renders alike in both places exactly when
    it holds none of the tokens. *)
Theorem compile_grouping_unescaped COMPARE_OPERATORS process (s : string) (st : state) :
  compile_grouping [BindParameter (VStr s)] st = Ok (PStr ("(" +:+ quote s +:+ ")"), st)
  /\ compile_clause COMPARE_OPERATORS process (BindParameter (VStr s)) st
     = Ok (PStr (quote (escape_tokens s)), st)
  /\ (quote (escape_tokens s) = quote s <-> count_chars is_token s = 0%nat).
Proof.
  split; [reflexivity|]. split; [reflexivity|].
  rewrite <- escape_tokens_fixed. split; [apply quote_inj|by intros ->].
Qed.

(** ** Queries that name no table *)

Lemma compile_filters_tableless COMPARE_OPERATORS process cs :
  forallb tableless cs = true ->
  forall i query st,
    exists query' format_args',
      compile_filters COMPARE_OPERATORS process i cs query st
      = Ok (query', {| tables := tables st; format_args := format_args' |}).
Proof.
  induction cs as [|c cs IH]; intros Hcs i query st.
  - exists query, (format_args st). by destruct st.
  - simpl in Hcs. apply andb_true_iff in Hcs as [Hc Hcs].
    assert (Hstep : exists r format_args',
      check_filter i c st = Ok (true, st)
      /\ compile_clause COMPARE_OPERATORS process c st
         = Ok (r, {| tables := tables st; format_args := format_args' |})).
    { destruct st as [ts fa].
      destruct c as [[]| | | | | |col| | | |]; try done; simpl; eauto. }
    destruct Hstep as (r & fa & Hck & Hr).
    destruct (IH Hcs (S i) (query ++ [r])%list {| tables := tables st; format_args := fa |})
      as (query' & fa' & H).
    exists query', fa'. simpl. unfold bind. by rewrite Hck, Hr.
Qed.

(** X15: a query made of bound texts, patterns, raw literals, integers,
    booleans and bare columns only, with no table-establishing clause,
    names no table and fails with "No filters passed", whatever the
    operator table, the order and the limit. *)
Theorem compile_zdb_query_tableless COMPARE_OPERATORS process element :
  forallb tableless (clauses element) = true ->
  compile_zdb_query COMPARE_OPERATORS process element
  = Raise (ValueError "No filters passed").
Proof.
  intros Hcs.
  destruct (compile_filters_tableless COMPARE_OPERATORS process _ Hcs 0 [] init)
    as (query & fa & Hloop).
  rewrite (compile_zdb_query_after_loop _ _ _ _ _ Hloop).
  destruct (decide _) as [|Hsize]; [done|].
  destruct Hsize. apply size_empty.
Qed.

(** ** Free-text queries *)

Lemma all_str_texts texts : all_str (map PStr texts) = Some texts.
Proof. induction texts as [|t texts IH]; simpl; [done|]. by rewrite IH. Qed.

Lemma compile_filters_texts COMPARE_OPERATORS process ss :
  forall i query st,
    compile_filters COMPARE_OPERATORS process i
      (map (fun s => BindParameter (VStr s)) ss) query st
    = Ok ((query ++ map (fun s => PStr (quote (escape_tokens s))) ss)%list, st).
Proof.
  induction ss as [|s ss IH]; intros i query st; simpl.
  - by rewrite app_nil_r.
  - unfold bind, ret. rewrite IH. by rewrite <- app_assoc.
Qed.

(** X16: a query of a table-establishing clause followed by bound texts
    compiles, whatever the operator table, to the table and the texts in
    their order, each escaped and between double quotes, joined by
    [" and "]. *)
Theorem compile_zdb_query_texts COMPARE_OPERATORS process t ss offset limit :
  compile_zdb_query COMPARE_OPERATORS process
    {| clauses := BindParameter (VTable t) :: map (fun s => BindParameter (VStr s)) ss;
       _zdb_order_by := None; _zdb_offset := offset; _zdb_limit := limit |}
  = Ok (t +:+ " ==> " +:+ "'"
          +:+ PyStr.join " and " (map (fun s => quote (escape_tokens s)) ss) +:+ "'").
Proof.
  rewrite (compile_zdb_query_one_table _ _ _
             (map (fun s => PStr (quote (escape_tokens s))) ss)
             {| tables := {[t]} ∪ ∅; format_args := [] |} t EmptyString
             (PyStr.join " and " (map (fun s => quote (escape_tokens s)) ss))).
  - simpl. by rewrite string_app_assoc.
  - simpl. unfold bind, tables_add, ret. simpl. by rewrite compile_filters_texts.
  - simpl. by rewrite (right_id_L ∅ (∪)).
  - reflexivity.
  - unfold join_values. rewrite <- (map_map (fun s => quote (escape_tokens s)) PStr).
    by rewrite all_str_texts.
Qed.

(** ** Instances *)

Lemma compile_limit_returns_witness :
  exists o l,
    as_int (VBool true) = Some o /\ as_int (VInt 20) = Some l
    /\ ((exists direction,
           UnaryExpression [{| table_name := "posts"; name := "rank";
                               annotated := false; zdb := true |}] operator.asc_op
           = ZdbScore direction
           /\ "#limit(rank asc, 1, 20) " = limit_text "_score" direction o l)
        \/ (exists column columns modifier,
              UnaryExpression [{| table_name := "posts"; name := "rank";
                                  annotated := false; zdb := true |}] operator.asc_op
              = UnaryExpression (column :: columns) modifier
              /\ zdb column = true /\ annotated column = false
              /\ "#limit(rank asc, 1, 20) "
                 = limit_text (name column)
                     (match modifier with operator.asc_op => "asc" | _ => "desc" end)
                     o l)).
Proof.
  apply (compile_limit_returns (VBool true) (VInt 20)
           (UnaryExpression [{| table_name := "posts"; name := "rank";
                                annotated := false; zdb := true |}] operator.asc_op)).
  vm_compute. reflexivity.
Defined.

Lemma compile_zdb_query_misplaced_table_witness :
  compile_zdb_query Sample.operators Sample.process
    (Sample.query [Column Sample.posts_title; BindParameter (VTable "posts")])
  = Raise (ValueError "Table can be specified only as first param").
Proof.
  destruct (compile_zdb_query_misplaced_table Sample.operators Sample.process
              (Sample.query [Column Sample.posts_title; BindParameter (VTable "posts")])
              [Column Sample.posts_title] "posts" [] eq_refl) as (_ & Hloop).
  - discriminate.
  - by eapply Hloop.
Defined.

Lemma compile_zdb_query_unsupported_filter_witness :
  compile_zdb_query Sample.operators Sample.process
    (Sample.query [BindParameter (VTable "posts"); Null])
  = Raise (ValueError "Unsupported filter").
Proof.
  destruct (compile_zdb_query_unsupported_filter Sample.operators Sample.process
              (Sample.query [BindParameter (VTable "posts"); Null])
              [BindParameter (VTable "posts")] Null [] eq_refl eq_refl) as (_ & Hloop).
  by eapply Hloop.
Defined.

Lemma compile_zdb_query_int_parameter_witness :
  compile_zdb_query Sample.operators Sample.process
    (Sample.query [BindParameter (VTable "posts"); BindParameter (VInt 5)])
  = Raise TypeError.
Proof.
  destruct (compile_zdb_query_int_parameter Sample.operators Sample.process
              (Sample.query [BindParameter (VTable "posts"); BindParameter (VInt 5)])
              [BindParameter (VTable "posts")] (BindParameter (VInt 5)) [] eq_refl eq_refl)
    as (_ & Hloop).
  apply (Hloop [PInt 5] {| tables := {[ "posts" ]} ∪ ∅; format_args := [] |}
           "posts" EmptyString eq_refl).
  - simpl. set_solver.
  - reflexivity.
Defined.

Lemma compile_zdb_query_offset_limit_witness :
  compile_zdb_query Sample.operators Sample.process
    {| clauses := [BindParameter (VTable "posts")]; _zdb_order_by := Some OrderNone;
       _zdb_offset := VStr "x"; _zdb_limit := VNone |}
  = compile_zdb_query Sample.operators Sample.process
      {| clauses := [BindParameter (VTable "posts")]; _zdb_order_by := Some OrderNone;
         _zdb_offset := VInt 0; _zdb_limit := VInt 10 |}
  /\ compile_zdb_query Sample.operators Sample.process
       {| clauses := [BindParameter (VTable "posts")]; _zdb_order_by := Some (ZdbScore "desc");
          _zdb_offset := VStr "x"; _zdb_limit := VInt 10 |}
     = Raise (Exception "Expected int for zdb LIMIT offset and/or limit").
Proof.
  split.
  - by apply (compile_zdb_query_offset_limit Sample.operators Sample.process
                [BindParameter (VTable "posts")] (Some OrderNone) (VStr "x") VNone).
  - destruct (compile_zdb_query_offset_limit Sample.operators Sample.process
                [BindParameter (VTable "posts")] (Some (ZdbScore "desc")) (VStr "x") (VInt 10))
      as (_ & Hread).
    apply (Hread eq_refl (or_introl eq_refl) []
             {| tables := {[ "posts" ]} ∪ ∅; format_args := [] |} "posts" eq_refl).
    simpl. set_solver.
Defined.

Lemma compile_clause_combination_witness :
  compile_clause Sample.operators Sample.process
    (BooleanClauseList operator.and_ [TextClause "a:1"; BindParameter (VInt 5)]) init
  = Raise TypeError
  /\ compile_clause Sample.operators Sample.process
       (BooleanClauseList operator.or_ []) init
     = Ok (PStr "()", init).
Proof.
  destruct (compile_clause_combination Sample.operators Sample.process
              operator.and_ [TextClause "a:1"; BindParameter (VInt 5)] init)
    as (_ & Hint & _).
  destruct (Hint [TextClause "a:1"] (BindParameter (VInt 5)) [] eq_refl eq_refl)
    as (_ & Hjoin).
  split.
  - apply (Hjoin [PStr "a:1"; PInt 5] init eq_refl). by left.
  - destruct (compile_clause_combination Sample.operators Sample.process
                operator.or_ [] init) as (_ & _ & Hempty).
    apply Hempty; [reflexivity|by right].
Defined.

Lemma compile_clause_grows_witness :
  tables {| tables := {[ "posts" ]} ∪ ∅; format_args := ["replace(users.name, '" +:+ dq +:+ "', '')"] |}
  = tables init
    ∪ comparison_tables
        (BooleanClauseList operator.or_
           [BinaryExpression (Column Sample.posts_title) operator.eq (TextClause "x");
            Column Sample.users_name])
  /\ (tables init ⊆ {[ "posts" ]} ∪ ∅)
  /\ (format_args init `prefix_of` ["replace(users.name, '" +:+ dq +:+ "', '')"]).
Proof.
  exact (compile_clause_grows Sample.operators Sample.process
           (BooleanClauseList operator.or_
              [BinaryExpression (Column Sample.posts_title) operator.eq (TextClause "x");
               Column Sample.users_name])
           init (PStr ("(title=x or " +:+ quote "%%s" +:+ ")"))
           {| tables := {[ "posts" ]} ∪ ∅;
              format_args := ["replace(users.name, '" +:+ dq +:+ "', '')"] |}
           eq_refl eq_refl).
Defined.

Lemma compile_zdb_json_literal_witness :
  exists body,
    sql_literal_body body = Some (quote "it's")
    /\ compile_zdb_json sample_dumps [BindParameter (VTable "posts"); BindParameter (VStr "it's")]
       = Ok ("posts" +:+ " ==> '" +:+ body +:+ "'")
    /\ compile_zdb_count sample_dumps [BindParameter (VTable "posts"); BindParameter (VStr "it's")]
       = Ok ("zdb.count('" +:+ "posts" +:+ "', '" +:+ body +:+ "')").
Proof.
  by apply (compile_zdb_json_literal sample_dumps "posts" (VStr "it's") (quote "it's")).
Defined.

Lemma compile_zdb_query_tableless_witness :
  compile_zdb_query Sample.operators Sample.process
    (Sample.query [BindParameter (VStr "open"); Column Sample.posts_title])
  = Raise (ValueError "No filters passed").
Proof.
  by apply (compile_zdb_query_tableless Sample.operators Sample.process
              (Sample.query [BindParameter (VStr "open"); Column Sample.posts_title])).
Defined.

Lemma compile_zdb_count_json_witness :
  exists table v query,
    [BindParameter (VTable "posts"); BindParameter (VInt 7)]
    = [BindParameter (VTable table); BindParameter v]
    /\ sample_dumps v = Ok query
    /\ "zdb.count('posts', '7')"
       = "zdb.count('" +:+ table +:+ "', '" +:+ PyStr.replace apostrophe "''" query +:+ "')"
    /\ compile_zdb_json sample_dumps [BindParameter (VTable "posts"); BindParameter (VInt 7)]
       = Ok (table +:+ " ==> '" +:+ PyStr.replace apostrophe "''" query +:+ "'").
Proof.
  destruct (compile_zdb_count_json sample_dumps
              [BindParameter (VTable "posts"); BindParameter (VInt 7)]) as (_ & Hcount & _).
  apply Hcount. vm_compute. reflexivity.
Defined.
